(** * A shallow embedding of the [graph::Graph] container (Graph.h)

    The header defines a class template [Graph<key_type, value_type,
    weight_type>] that owns a [std::unordered_map] from keys to nodes, and a
    nested class [Node] that owns a value and a [std::unordered_map] from
    target keys to weights.  Both maps are modelled by stdpp's [gmap]: keys
    are unique and the iteration order is not observable in any result below.

    Methods that mutate their object are functions from the object to the
    new object and the returned value.  A method that may throw returns an
    [outcome]; when it throws it has not mutated anything, so it gives the
    object back as it was.  A [size_t] is a [nat]: every [size_t] the header
    produces is the size of a map, or a counter bounded by one (see
    [degree_in_le_size]), so no arithmetic on it wraps around. *)

From stdpp Require Import gmap strings list fin_maps.

(** ** Exceptions *)

(** [class GraphException : public std::exception], holding its message. *)
Record GraphException := mkGraphException { what : string }.

(** The only exception the header ever constructs:
    [GraphException("Key not found")]. *)
Definition KeyNotFound : GraphException := mkGraphException "Key not found".

(** The result of a call that either returns or throws. *)
Inductive outcome (A : Type) : Type :=
  | Return (a : A)
  | Throw (e : GraphException).
Arguments Return {A} a.
Arguments Throw {A} e.

Definition throws {A} (o : outcome A) : bool :=
  match o with Return _ => false | Throw _ => true end.

(** ** The [std::unordered_map] operations the header calls

    An iterator is modelled by the entry it points to ([Some (k, a)]), the
    past-the-end iterator [end()] by [None].  [insert] and [insert_or_assign]
    always return an iterator to an entry, so theirs is the entry itself. *)
Module umap.
Section umap.
Context `{Countable K} {A : Type}.
Implicit Types (m : gmap K A) (k : K) (a : A).

Definition find m k : option (K * A) :=
    match m !! k with
    | Some a => Some (k, a)
    | None => None
    end.

(** [find(k) == end()] / [find(k) != end()] *)
Definition is_end (it : option (K * A)) : bool :=
    match it with Some _ => false | None => true end.

(** [insert({k, a})]: inserts only when no entry has key [k]; otherwise
      the map is left alone and the iterator points to the entry that
      prevented the insertion. *)
Definition insert m k a : gmap K A * ((K * A) * bool) :=
    match m !! k with
    | Some a0 => (m, ((k, a0), false))
    | None => (<[k := a]> m, ((k, a), true))
    end.

(** [insert_or_assign(k, a)]: the flag is true when an insertion took
      place, false when an assignment took place. *)
Definition insert_or_assign m k a : gmap K A * ((K * A) * bool) :=
    match m !! k with
    | Some _ => (<[k := a]> m, ((k, a), false))
    | None => (<[k := a]> m, ((k, a), true))
    end.

Definition size m : nat := base.size m.
Definition empty m : bool := Nat.eqb (base.size m) 0.
Definition clear m : gmap K A := ∅.

(** [a.swap(b)]: the two maps trade contents; the pair is (a, b) after. *)
Definition swap (a b : gmap K A) : gmap K A * gmap K A := (b, a).
End umap.
End umap.

(** ** The data model *)
Section Data.
Context `{Countable key_type} {value_type weight_type : Type}.

(** [class Graph::Node]: [m_value] and [m_edge]. *)
Record Node : Type := mkNode {
    m_value : value_type;
    m_edge : gmap key_type weight_type
  }.

(** [class Graph]: [m_umap]. *)
Record Graph : Type := mkGraph {
    m_umap : gmap key_type Node
  }.
End Data.
Arguments Node key_type {_ _} value_type weight_type.
Arguments Graph key_type {_ _} value_type weight_type.
Arguments mkNode {key_type _ _ value_type weight_type} m_value m_edge.
Arguments mkGraph {key_type _ _ value_type weight_type} m_umap.

(** ** [Graph::Node] *)
Module Node.
Section Node.
Context `{Countable key_type} {value_type weight_type : Type}.
#[local] Abbreviation Node := (Node key_type value_type weight_type).
Implicit Types (this : Node) (key : key_type) (weight : weight_type).

(** [explicit Node(value_type value) : m_value(value) {}]; [m_edge] is
      default-constructed, that is, empty. *)
Definition make (value : value_type) : Node := mkNode value ∅.

(** [Node() = default] *)
Definition default `{Inhabited value_type} : Node := mkNode inhabitant ∅.

Definition empty this : bool := umap.empty (m_edge this).
Definition size this : nat := umap.size (m_edge this).
Definition value this : value_type := m_value this.
Definition clear this : Node := mkNode (m_value this) (umap.clear (m_edge this)).
Definition getedges this : gmap key_type weight_type := m_edge this.
Definition getvalue this : value_type := m_value this.

(** [return m_edge.insert({key, weight});] *)
Definition insert_edge this key weight
    : Node * ((key_type * weight_type) * bool) :=
    let '(edges, r) := umap.insert (m_edge this) key weight in
    (mkNode (m_value this) edges, r).

(** [return m_edge.insert_or_assign(key, weight);] *)
Definition insert_or_assign_edge this key weight
    : Node * ((key_type * weight_type) * bool) :=
    let '(edges, r) := umap.insert_or_assign (m_edge this) key weight in
    (mkNode (m_value this) edges, r).

(** [begin()] to [end()], and [cbegin()] to [cend()]: the edges in the
    order [m_edge] iterates them. *)
Definition entries this : list (key_type * weight_type) :=
  map_to_list (m_edge this).
End Node.
End Node.

(** ** [Graph] *)
Module Graph.
Section Graph.
Context `{Countable key_type} {value_type weight_type : Type}.
#[local] Abbreviation Node := (Node key_type value_type weight_type).
#[local] Abbreviation Graph := (Graph key_type value_type weight_type).
Implicit Types (this : Graph) (key : key_type) (value : value_type)
    (weight : weight_type) (end_points : key_type * key_type).

(** [Graph() = default] *)
Definition default : Graph := mkGraph ∅.

Definition empty this : bool := umap.empty (m_umap this).
Definition size this : nat := umap.size (m_umap this).
Definition clear this : Graph := mkGraph (umap.clear (m_umap this)).

(** [operator[]]: access or default-construct and insert. *)
Definition index `{Inhabited value_type} this key : Graph * Node :=
    match m_umap this !! key with
    | Some n => (this, n)
    | None => (mkGraph (<[key := Node.default]> (m_umap this)), Node.default)
    end.

(** [at]: ([at] is a reserved word, hence the underscore)
<<
      auto find = m_umap.find(key);
      if (find == m_umap.end()) throw GraphException("Key not found");
      return find->second;
>> *)
Definition at_ this key : outcome Node :=
    match umap.find (m_umap this) key with
    | None => Throw KeyNotFound
    | Some (_, second) => Return second
    end.

Definition find this key : option (key_type * Node) :=
    umap.find (m_umap this) key.

(** [degree_in]:
<<
      if (m_umap.find(key) == m_umap.end()) throw GraphException("Key not found");
      size_t counter = 0;
      for (auto const &elem: m_umap) {
          auto edges = elem.second.getedges();
          if (edges.find(key) != edges.end()) counter++;
      }
      return counter;
>>
      The loop is a fold over the entries of the map. *)
Definition degree_in_step key (elem_first : key_type) (elem_second : Node)
      (counter : nat) : nat :=
    let edges := Node.getedges elem_second in
    if umap.is_end (umap.find edges key) then counter else S counter.

Definition degree_in this key : outcome nat :=
    if umap.is_end (umap.find (m_umap this) key) then Throw KeyNotFound
    else Return (map_fold (degree_in_step key) 0 (m_umap this)).

(** [degree_out]:
<<
      if (m_umap.find(key) == m_umap.end()) throw GraphException("Key not found");
      return (m_umap.find(key))->second.getedges().size();
>> *)
Definition degree_out this key : outcome nat :=
    match umap.find (m_umap this) key with
    | None => Throw KeyNotFound
    | Some (_, second) => Return (umap.size (Node.getedges second))
    end.

(** [loop]:
<<
      if (m_umap.find(key) == m_umap.end()) throw GraphException("Key not found");
      auto node_map = m_umap.find(key)->second.getedges();
      if (node_map.find(key) != node_map.end()) return true;
      return false;
>> *)
Definition loop this key : outcome bool :=
    match umap.find (m_umap this) key with
    | None => Throw KeyNotFound
    | Some (_, second) =>
        let node_map := Node.getedges second in
        if umap.is_end (umap.find node_map key) then Return false
        else Return true
    end.

(** [return m_umap.insert({key, Node{value}});] *)
Definition insert_node this key value
    : Graph * ((key_type * Node) * bool) :=
    let '(m, r) := umap.insert (m_umap this) key (Node.make value) in
    (mkGraph m, r).

(** [return m_umap.insert_or_assign(key, Node{value});] *)
Definition insert_or_assign_node this key value
    : Graph * ((key_type * Node) * bool) :=
    let '(m, r) := umap.insert_or_assign (m_umap this) key (Node.make value) in
    (mkGraph m, r).

(** Writing back the node an iterator into [m_umap] points to, after a
      method mutated it through [it->second]. *)
Definition store_second this (first : key_type) (second : Node) : Graph :=
    mkGraph (<[first := second]> (m_umap this)).

(** [insert_edge]:
<<
      auto first = m_umap.find(end_points.first);
      auto second = m_umap.find(end_points.second);
      if (first == m_umap.end()) throw GraphException("Key not found");
      if (second == m_umap.end()) throw GraphException("Key not found");
      return (first->second.insert_edge(end_points.second, weight));
>> *)
Definition insert_edge this end_points weight
    : Graph * outcome ((key_type * weight_type) * bool) :=
    let first := umap.find (m_umap this) end_points.1 in
    let second := umap.find (m_umap this) end_points.2 in
    match first with
    | None => (this, Throw KeyNotFound)
    | Some (first_first, first_second) =>
        if umap.is_end second then (this, Throw KeyNotFound)
        else
          let '(n, r) := Node.insert_edge first_second end_points.2 weight in
          (store_second this first_first n, Return r)
    end.

(** [insert_or_assign_edge]:
<<
      if (m_umap.find(end_points.first) == m_umap.end()) throw GraphException("Key not found");
      return (m_umap.find(end_points.first))->second.insert_or_assign_edge(end_points.second, weight);
>> *)
Definition insert_or_assign_edge this end_points weight
    : Graph * outcome ((key_type * weight_type) * bool) :=
    match umap.find (m_umap this) end_points.1 with
    | None => (this, Throw KeyNotFound)
    | Some (first, second) =>
        let '(n, r) := Node.insert_or_assign_edge second end_points.2 weight in
        (store_second this first n, Return r)
    end.

(** [void swap(Graph& graph) noexcept { m_umap.swap(graph.m_umap); }]:
      the pair is ([*this], [graph]) after the call, for two distinct
      objects. *)
Definition swap this (graph : Graph) : Graph * Graph :=
    let '(a, b) := umap.swap (m_umap this) (m_umap graph) in
    (mkGraph a, mkGraph b).

(** [begin()] to [end()], and [cbegin()] to [cend()]: the (key, node)
    entries in the order [m_umap] iterates them. *)
Definition entries this : list (key_type * Node) :=
  map_to_list (m_umap this).
End Graph.
End Graph.


(** ** Objects, references and value parameters

    Constructors, assignment, [swap] and the free function [graph::swap]
    differ only in which objects they touch, so they are modelled on a store
    of [Graph] objects named by their addresses.  A [Graph&] or [Graph&&]
    parameter is an address; a parameter of type [Graph] is a new object,
    initialised from its argument when the call starts and destroyed when it
    returns.  An operation on an address that names no object is undefined
    ([None]). *)
Module Store.
Section Store.
Context `{Countable key_type} {value_type weight_type : Type}.
#[local] Abbreviation Graph := (Graph key_type value_type weight_type).
#[local] Abbreviation store := (gmap nat Graph).
Implicit Types (st : store) (this graph : nat).

(** Storage for a new object, with all members default-initialised. *)
Definition alloc st : nat * store :=
  let this := fresh (dom st) in (this, <[this := Graph.default]> st).

(** The end of an object's lifetime. *)
Definition destroy this st : store := delete this st.

(** A call [this->method(...)] of a method that touches no other object. *)
Definition call {R} this (method : Graph → Graph * R) st : option (store * R) :=
  g ← st !! this;
  let '(g', r) := method g in
  Some (<[this := g']> st, r).

(** [this->swap(graph)].  When both addresses name the same object the
    writes put back what was read, as swapping a map with itself does. *)
Definition swap this graph st : option store :=
  g1 ← st !! this;
  g2 ← st !! graph;
  let '(g1', g2') := Graph.swap g1 g2 in
  Some (<[graph := g2']> (<[this := g1']> st)).

(** [m_umap = graph.m_umap;], the body of the copy constructor and of the
    copy assignment: the whole node map, nodes and their edge maps, is
    copied by value. *)
Definition copy_body this graph st : option store :=
  g ← st !! graph;
  _ ← st !! this;
  Some (<[this := mkGraph (m_umap g)]> st).

(** [Graph(const Graph& graph) noexcept { m_umap = graph.m_umap; }]
    The reference is bound to a live object before the new one exists. *)
Definition copy_ctor graph st : option (nat * store) :=
  _ ← st !! graph;
  let '(this, st1) := alloc st in
  st2 ← copy_body this graph st1;
  Some (this, st2).

(** [Graph(Graph&& graph) noexcept { swap(graph); }]
    Inside the class the name [swap] is the member function. *)
Definition move_ctor graph st : option (nat * store) :=
  _ ← st !! graph;
  let '(this, st1) := alloc st in
  st2 ← swap this graph st1;
  Some (this, st2).

(** [operator=(const Graph& graph) { m_umap = graph.m_umap; return *this; }] *)
Definition copy_assign this graph st : option store :=
  copy_body this graph st.

(** [operator=(Graph&& graph) { swap(graph); return *this; }] *)
Definition move_assign this graph st : option store :=
  swap this graph st.

(** The free function
<<
    void swap(Graph<...> graph1, Graph<...> graph2) { graph1.swap(graph2); }
>>
    called as [swap(a, b)] on two objects of the caller: both parameters are
    copy-constructed from the arguments, the body runs on the parameters,
    and the parameters are destroyed on return. *)
Definition free_swap (arg1 arg2 : nat) st : option store :=
  '(graph1, st1) ← copy_ctor arg1 st;
  '(graph2, st2) ← copy_ctor arg2 st1;
  st3 ← swap graph1 graph2 st2;
  Some (destroy graph1 (destroy graph2 st3)).
End Store.
End Store.

(** ** The in-degree in the spec's words *)
Section InDegree.
Context `{Countable key_type} {value_type weight_type : Type}.
#[local] Abbreviation Node := (Node key_type value_type weight_type).
#[local] Abbreviation Graph := (Graph key_type value_type weight_type).

(** The number of nodes of the graph that have an outgoing edge whose
    target equals [key]. *)
Definition has_edge_to (key : key_type) (entry : key_type * Node) : Prop :=
  is_Some (m_edge entry.2 !! key).

Definition nodes_with_edge_to (this : Graph) (key : key_type) : nat :=
  base.size (filter (has_edge_to key) (m_umap this)).
End InDegree.

(** ** Edges whose target is a node *)
Section Targets.
Context `{Countable key_type} {value_type weight_type : Type}.
#[local] Abbreviation Node := (Node key_type value_type weight_type).
#[local] Abbreviation Graph := (Graph key_type value_type weight_type).

(** Every edge of every node points to a key that is itself a node of the
    graph.  The header states no such invariant; the properties below show
    which operations keep it. *)
Definition no_dangling_edge (this : Graph) : Prop :=
  map_Forall (λ _ (n : Node), dom (m_edge n) ⊆ dom (m_umap this)) (m_umap this).

(** A caller's loop over the graph that adds up one of the degree queries,
<<
    size_t total = 0;
    for (auto const &elem : g) total += g.degree(elem.first);
>>
    written as the fold the loop is.  The queries do not throw on a key the
    iteration yields; a throw would end the loop, and is given no share. *)
Definition degree_sum (degree : Graph → key_type → outcome nat) (this : Graph)
    : nat :=
  map_fold (λ key (_ : Node) total,
              match degree this key with
              | Return c => c + total
              | Throw _ => total
              end) 0 (m_umap this).
End Targets.

(** ** Concrete graphs: string keys, integer values and weights *)
Module Examples.
#[local] Abbreviation G := (Graph string Z Z).

Definition run_node (k : string) (v : Z) (g : G) : G :=
  (Graph.insert_node g k v).1.
Definition run_edge (s t : string) (w : Z) (g : G) : G :=
  (Graph.insert_edge g (s, t) w).1.

(** Only node A. *)
Definition only_A : G := run_node "A" 0 Graph.default.

(** Nodes A, B, C; edges A→B (5), A→C (2), B→C (1). *)
Definition abc : G :=
  run_edge "B" "C" 1 (run_edge "A" "C" 2 (run_edge "A" "B" 5
    (run_node "C" 0 (run_node "B" 0 (run_node "A" 0 Graph.default))))).

(** Node A with a self-loop of weight 7. *)
Definition self_loop : G := run_edge "A" "A" 7 only_A.

(** Two objects: a graph with node A at address 0, one with node B at 1. *)
Definition two_graphs : gmap nat G :=
  <[1 := run_node "B" 0 Graph.default]> (<[0 := only_A]> ∅).

(** Node A with an edge to "ghost", which is not a node. *)
Definition dangling : G :=
  (Graph.insert_or_assign_edge only_A ("A", "ghost") 1%Z).1.
End Examples.

(** * Properties *)

(** ** Lookups and the two insertion primitives *)
Section umap_facts.
Context `{Countable K} {A : Type}.
Implicit Types (m : gmap K A) (k : K) (a : A).

Lemma find_absent m k : m !! k = None → umap.find m k = None.
Proof. unfold umap.find. by intros ->. Qed.

Lemma find_present m k a : m !! k = Some a → umap.find m k = Some (k, a).
Proof. unfold umap.find. by intros ->. Qed.

Lemma is_end_find m k : umap.is_end (umap.find m k) = true ↔ m !! k = None.
Proof. unfold umap.find. destruct (m !! k); simpl; split; congruence. Qed.

Lemma not_end_find m k : umap.is_end (umap.find m k) = false ↔ is_Some (m !! k).
Proof.
  unfold umap.find. destruct (m !! k) as [a|]; simpl; split; intros Hx;
    try done; try (by eauto); by destruct Hx.
Qed.

Lemma insert_absent m k a :
  m !! k = None → umap.insert m k a = (<[k := a]> m, ((k, a), true)).
Proof. unfold umap.insert. by intros ->. Qed.

Lemma insert_present m k a a0 :
  m !! k = Some a0 → umap.insert m k a = (m, ((k, a0), false)).
Proof. unfold umap.insert. by intros ->. Qed.

Lemma insert_or_assign_map m k a : (umap.insert_or_assign m k a).1 = <[k := a]> m.
Proof. unfold umap.insert_or_assign. by destruct (m !! k). Qed.

Lemma insert_or_assign_result m k a :
  ∃ flag, (umap.insert_or_assign m k a).2 = ((k, a), flag)
          ∧ (flag = true ↔ m !! k = None).
Proof.
  unfold umap.insert_or_assign. destruct (m !! k); simpl.
  - exists false. split; [done | split; congruence].
  - exists true. by split.
Qed.
End umap_facts.

(** ** Edge insertion on a node and through the graph *)
Section edge_facts.
Context `{Countable key_type} {value_type weight_type : Type}.
#[local] Abbreviation Node := (Node key_type value_type weight_type).
#[local] Abbreviation Graph := (Graph key_type value_type weight_type).
Implicit Types (this : Graph) (n : Node) (source target key : key_type)
  (weight : weight_type).

Lemma Node_eta n : mkNode (m_value n) (m_edge n) = n.
Proof. by destruct n. Qed.

Lemma Graph_eta this : mkGraph (m_umap this) = this.
Proof. by destruct this. Qed.

Lemma Node_insert_edge_new n target weight :
  m_edge n !! target = None →
  Node.insert_edge n target weight =
    (mkNode (m_value n) (<[target := weight]> (m_edge n)), ((target, weight), true)).
Proof. intros E. unfold Node.insert_edge. by rewrite (insert_absent _ _ _ E). Qed.

Lemma Node_insert_edge_old n target weight w0 :
  m_edge n !! target = Some w0 →
  Node.insert_edge n target weight = (n, ((target, w0), false)).
Proof.
  intros E. unfold Node.insert_edge.
  by rewrite (insert_present _ _ _ _ E), Node_eta.
Qed.

Lemma Node_insert_or_assign_edge_spec n target weight :
  ∃ flag,
    Node.insert_or_assign_edge n target weight =
      (mkNode (m_value n) (<[target := weight]> (m_edge n)), ((target, weight), flag))
    ∧ (flag = true ↔ m_edge n !! target = None).
Proof.
  unfold Node.insert_or_assign_edge.
  destruct (insert_or_assign_result (m_edge n) target weight) as (flag & E & Hflag).
  exists flag. split; [| done].
  pose proof (insert_or_assign_map (m_edge n) target weight) as E1.
  destruct (umap.insert_or_assign (m_edge n) target weight) as [edges r].
  simpl in *. by subst.
Qed.

Lemma store_second_same this key n :
  m_umap this !! key = Some n → Graph.store_second this key n = this.
Proof.
  intros E. unfold Graph.store_second. by rewrite (insert_id _ _ _ E), Graph_eta.
Qed.

Lemma insert_edge_no_source this source target weight :
  m_umap this !! source = None →
  Graph.insert_edge this (source, target) weight = (this, Throw KeyNotFound).
Proof. intros E. unfold Graph.insert_edge. simpl. by rewrite (find_absent _ _ E). Qed.

Lemma insert_edge_no_target this source target weight :
  m_umap this !! target = None →
  Graph.insert_edge this (source, target) weight = (this, Throw KeyNotFound).
Proof.
  intros E. unfold Graph.insert_edge. simpl. rewrite (find_absent _ _ E). simpl.
  by destruct (umap.find (m_umap this) source) as [[? ?]|].
Qed.

Lemma insert_edge_delegates this source target weight n :
  m_umap this !! source = Some n →
  is_Some (m_umap this !! target) →
  Graph.insert_edge this (source, target) weight =
    (let '(n', r) := Node.insert_edge n target weight in
     (Graph.store_second this source n', Return r)).
Proof.
  intros E Ht. unfold Graph.insert_edge. simpl.
  rewrite (find_present _ _ _ E).
  apply not_end_find in Ht. by rewrite Ht.
Qed.

Lemma insert_or_assign_edge_no_source this source target weight :
  m_umap this !! source = None →
  Graph.insert_or_assign_edge this (source, target) weight = (this, Throw KeyNotFound).
Proof.
  intros E. unfold Graph.insert_or_assign_edge. simpl. by rewrite (find_absent _ _ E).
Qed.

Lemma insert_or_assign_edge_delegates this source target weight n :
  m_umap this !! source = Some n →
  Graph.insert_or_assign_edge this (source, target) weight =
    (let '(n', r) := Node.insert_or_assign_edge n target weight in
     (Graph.store_second this source n', Return r)).
Proof.
  intros E. unfold Graph.insert_or_assign_edge. simpl.
  by rewrite (find_present _ _ _ E).
Qed.
End edge_facts.

(** ** Error handling of the edge insertions *)

(** C1: [Graph::insert_edge((source, target), weight)] throws KeyNotFound,
    leaving the graph as it was, when [source] or [target] is not a key of
    the node map.  When both are, the call is the source node's
    [insert_edge(target, weight)]: if the node has no edge to [target] the
    edge is added and the flag is true; if it already has one, nothing
    changes, the handle points to the existing edge with its old weight and
    the flag is false. *)
Theorem insert_edge_checks_both_endpoints
    `{Countable key_type} {value_type weight_type : Type}
    (this : Graph key_type value_type weight_type)
    (source target : key_type) (weight : weight_type) :
  (m_umap this !! source = None ∨ m_umap this !! target = None →
     Graph.insert_edge this (source, target) weight = (this, Throw KeyNotFound))
  ∧ (∀ n, m_umap this !! source = Some n → is_Some (m_umap this !! target) →
       Graph.insert_edge this (source, target) weight =
         (let '(n', r) := Node.insert_edge n target weight in
          (Graph.store_second this source n', Return r))
       ∧ (m_edge n !! target = None →
            Graph.insert_edge this (source, target) weight =
              (mkGraph (<[source := mkNode (m_value n)
                                     (<[target := weight]> (m_edge n))]> (m_umap this)),
               Return ((target, weight), true)))
       ∧ (∀ w0, m_edge n !! target = Some w0 →
            Graph.insert_edge this (source, target) weight =
              (this, Return ((target, w0), false)))).
Proof.
  split.
  - intros [E | E].
    + by apply insert_edge_no_source.
    + by apply insert_edge_no_target.
  - intros n Es Ht.
    pose proof (insert_edge_delegates this source target weight n Es Ht) as D.
    split; [exact D | split].
    + intros En. rewrite D, (Node_insert_edge_new _ _ _ En). reflexivity.
    + intros w0 En. rewrite D, (Node_insert_edge_old _ _ _ _ En).
      by rewrite (store_second_same _ _ _ Es).
Qed.

Lemma insert_edge_checks_both_endpoints_witness :
  Graph.insert_edge Examples.only_A ("A", "ghost") 1%Z
    = (Examples.only_A, Throw KeyNotFound)
  ∧ Graph.insert_edge Examples.only_A ("ghost", "A") 1%Z
    = (Examples.only_A, Throw KeyNotFound)
  ∧ Graph.insert_edge Examples.only_A ("A", "A") 7%Z
    = (Examples.self_loop, Return (("A", 7%Z), true))
  ∧ Graph.insert_edge Examples.self_loop ("A", "A") 9%Z
    = (Examples.self_loop, Return (("A", 7%Z), false)).
Proof.
  split; [| split; [| split]].
  - apply (proj1 (insert_edge_checks_both_endpoints
                    Examples.only_A "A" "ghost" 1%Z)).
    right. vm_compute. reflexivity.
  - apply (proj1 (insert_edge_checks_both_endpoints
                    Examples.only_A "ghost" "A" 1%Z)).
    left. vm_compute. reflexivity.
  - destruct (proj2 (insert_edge_checks_both_endpoints
                       Examples.only_A "A" "A" 7%Z) (Node.make 0%Z))
      as (_ & Hnew & _).
    + vm_compute. reflexivity.
    + exists (Node.make 0%Z). vm_compute. reflexivity.
    + rewrite Hnew; [| vm_compute; reflexivity]. vm_compute. reflexivity.
  - destruct (proj2 (insert_edge_checks_both_endpoints
                       Examples.self_loop "A" "A" 9%Z)
                (mkNode 0%Z (<["A" := 7%Z]> ∅)))
      as (_ & _ & Hold).
    + vm_compute. reflexivity.
    + eexists. vm_compute. reflexivity.
    + apply Hold. vm_compute. reflexivity.
Defined.

(** C2, as the spec words it, fails: with node A only,
    [insert_edge((A, "ghost"), 1)] throws because of the missing target. *)
Lemma insert_edge_ghost_target_throws :
  is_Some (m_umap Examples.only_A !! "A")
  ∧ m_umap Examples.only_A !! "ghost" = None
  ∧ Graph.insert_edge Examples.only_A ("A", "ghost") 1%Z
    = (Examples.only_A, Throw KeyNotFound).
Proof.
  split; [| split].
  - eexists. vm_compute. reflexivity.
  - vm_compute. reflexivity.
  - vm_compute. reflexivity.
Qed.

(** C2 (amended): [Graph::insert_edge] looks up both end points before it
    delegates, and the destination key is validated to be a node key: on a
    graph that contains [source] but not [target] the call throws
    KeyNotFound and leaves the graph unchanged. *)
Theorem insert_edge_validates_target
    `{Countable key_type} {value_type weight_type : Type}
    (this : Graph key_type value_type weight_type)
    (source target : key_type) (weight : weight_type) :
  is_Some (m_umap this !! source) →
  m_umap this !! target = None →
  Graph.insert_edge this (source, target) weight = (this, Throw KeyNotFound)
  ∧ throws (Graph.insert_edge this (source, target) weight).2 = true.
Proof.
  intros _ Et. rewrite (insert_edge_no_target _ _ _ _ Et). by split.
Qed.

Lemma insert_edge_validates_target_witness :
  Graph.insert_edge Examples.only_A ("A", "ghost") 1%Z
    = (Examples.only_A, Throw KeyNotFound)
  ∧ throws (Graph.insert_edge Examples.only_A ("A", "ghost") 1%Z).2 = true.
Proof.
  apply (insert_edge_validates_target Examples.only_A "A" "ghost" 1%Z).
  - exists (Node.make 0%Z). vm_compute. reflexivity.
  - vm_compute. reflexivity.
Defined.

(** C3: [Graph::insert_or_assign_edge((source, target), weight)] throws
    KeyNotFound exactly when [source] is not a key of the node map, whatever
    [target] is.  When [source] is a key the call is the source node's
    [insert_or_assign_edge(target, weight)]: afterwards the node has the
    edge to [target] with weight [weight], and the flag is true exactly when
    the node had no edge to [target] before. *)
Theorem insert_or_assign_edge_checks_source_only
    `{Countable key_type} {value_type weight_type : Type}
    (this : Graph key_type value_type weight_type)
    (source target : key_type) (weight : weight_type) :
  (throws (Graph.insert_or_assign_edge this (source, target) weight).2 = true
     ↔ m_umap this !! source = None)
  ∧ (m_umap this !! source = None →
       Graph.insert_or_assign_edge this (source, target) weight
         = (this, Throw KeyNotFound))
  ∧ (∀ n, m_umap this !! source = Some n →
       Graph.insert_or_assign_edge this (source, target) weight =
         (let '(n', r) := Node.insert_or_assign_edge n target weight in
          (Graph.store_second this source n', Return r))
       ∧ ∃ flag,
           Graph.insert_or_assign_edge this (source, target) weight =
             (mkGraph (<[source := mkNode (m_value n)
                                    (<[target := weight]> (m_edge n))]> (m_umap this)),
              Return ((target, weight), flag))
           ∧ (flag = true ↔ m_edge n !! target = None)).
Proof.
  assert (∀ n, m_umap this !! source = Some n →
       Graph.insert_or_assign_edge this (source, target) weight =
         (let '(n', r) := Node.insert_or_assign_edge n target weight in
          (Graph.store_second this source n', Return r))
       ∧ ∃ flag,
           Graph.insert_or_assign_edge this (source, target) weight =
             (mkGraph (<[source := mkNode (m_value n)
                                    (<[target := weight]> (m_edge n))]> (m_umap this)),
              Return ((target, weight), flag))
           ∧ (flag = true ↔ m_edge n !! target = None)) as Present.
  { intros n Es.
    pose proof (insert_or_assign_edge_delegates this source target weight n Es) as D.
    split; [exact D |].
    destruct (Node_insert_or_assign_edge_spec n target weight) as (flag & E & Hflag).
    exists flag. split; [| exact Hflag]. rewrite D, E. reflexivity. }
  split; [| split; [apply insert_or_assign_edge_no_source | exact Present]].
  destruct (m_umap this !! source) as [n|] eqn:Es.
  - destruct (Present n eq_refl) as (_ & flag & E & _). rewrite E. simpl.
    split; congruence.
  - by rewrite (insert_or_assign_edge_no_source _ _ _ _ Es).
Qed.

Lemma insert_or_assign_edge_checks_source_only_witness :
  Graph.insert_or_assign_edge Examples.only_A ("ghost", "A") 1%Z
    = (Examples.only_A, Throw KeyNotFound)
  ∧ ∃ flag, (Graph.insert_or_assign_edge Examples.only_A ("A", "ghost") 1%Z).2
              = Return (("ghost", 1%Z), flag)
            ∧ (flag = true ↔ (∅ : gmap string Z) !! "ghost" = None).
Proof.
  split.
  - apply (proj1 (proj2 (insert_or_assign_edge_checks_source_only
                           Examples.only_A "ghost" "A" 1%Z))).
    vm_compute. reflexivity.
  - destruct (proj2 (proj2 (insert_or_assign_edge_checks_source_only
                              Examples.only_A "A" "ghost" 1%Z)) (Node.make 0%Z))
      as (_ & flag & E & Hflag).
    + vm_compute. reflexivity.
    + exists flag. rewrite E. split; [reflexivity | exact Hflag].
Defined.

(** ** Queries *)
Section query_facts.
Context `{Countable key_type} {value_type weight_type : Type}.
#[local] Abbreviation Node := (Node key_type value_type weight_type).
#[local] Abbreviation Graph := (Graph key_type value_type weight_type).
Implicit Types (this : Graph) (n : Node) (key : key_type).

Lemma degree_in_step_edge key k n counter :
  is_Some (m_edge n !! key) → Graph.degree_in_step key k n counter = S counter.
Proof.
  intros E. unfold Graph.degree_in_step, Node.getedges.
  apply not_end_find in E. by rewrite E.
Qed.

Lemma degree_in_step_no_edge key k n counter :
  m_edge n !! key = None → Graph.degree_in_step key k n counter = counter.
Proof.
  intros E. unfold Graph.degree_in_step, Node.getedges.
  apply is_end_find in E. by rewrite E.
Qed.

(** The loop of [degree_in] counts the entries that satisfy the filter. *)
Lemma degree_in_loop_counts key (m : gmap key_type Node) :
  map_fold (Graph.degree_in_step key) 0 m
    = base.size (filter (has_edge_to key) m).
Proof.
  apply (map_fold_weak_ind
           (λ r m, r = base.size (filter (has_edge_to key) m))).
  - by rewrite map_filter_empty, map_size_empty.
  - intros k n m' r Hk ->.
    destruct (m_edge n !! key) as [w|] eqn:E.
    + rewrite degree_in_step_edge by (rewrite E; eauto).
      rewrite map_filter_insert_True by (unfold has_edge_to; simpl; rewrite E; eauto).
      rewrite map_size_insert_None; [done |].
      by rewrite map_lookup_filter_None; left.
    + rewrite degree_in_step_no_edge by done.
      rewrite map_filter_insert_False
        by (unfold has_edge_to; simpl; rewrite E; by intros [? ?]).
      by rewrite delete_id.
Qed.

(** The counter never exceeds the number of nodes. *)
Lemma degree_in_le_size this key c :
  Graph.degree_in this key = Return c → c ≤ Graph.size this.
Proof.
  unfold Graph.degree_in.
  destruct (umap.is_end _); [done |]. intros [= <-].
  rewrite degree_in_loop_counts. apply map_size_filter.
Qed.

Lemma queries_absent this key :
  m_umap this !! key = None →
  Graph.at_ this key = Throw KeyNotFound
  ∧ Graph.degree_in this key = Throw KeyNotFound
  ∧ Graph.degree_out this key = Throw KeyNotFound
  ∧ Graph.loop this key = Throw KeyNotFound.
Proof.
  intros E. unfold Graph.at_, Graph.degree_in, Graph.degree_out, Graph.loop.
  by rewrite (find_absent _ _ E).
Qed.

Lemma queries_present this key n :
  m_umap this !! key = Some n →
  Graph.at_ this key = Return n
  ∧ Graph.degree_in this key = Return (nodes_with_edge_to this key)
  ∧ Graph.degree_out this key = Return (base.size (m_edge n))
  ∧ ∃ b, Graph.loop this key = Return b ∧ (b = true ↔ is_Some (m_edge n !! key)).
Proof.
  intros E. unfold Graph.at_, Graph.degree_in, Graph.degree_out, Graph.loop.
  rewrite (find_present _ _ _ E). simpl.
  split; [done | split; [| split; [done |]]].
  - by rewrite degree_in_loop_counts.
  - unfold Node.getedges.
    destruct (umap.is_end (umap.find (m_edge n) key)) eqn:Eend.
    + exists false. split; [done |]. apply is_end_find in Eend. rewrite Eend.
      split; [done | by intros [? ?]].
    + exists true. split; [done |]. apply not_end_find in Eend. by split.
Qed.
End query_facts.

(** C4: for a key with no node entry, [at], [degree_in], [degree_out] and
    [loop] each throw KeyNotFound; for a key that has a node entry none of
    them throws. *)
Theorem queries_throw_exactly_on_absent_key
    `{Countable key_type} {value_type weight_type : Type}
    (this : Graph key_type value_type weight_type) (key : key_type) :
  (m_umap this !! key = None →
     Graph.at_ this key = Throw KeyNotFound
     ∧ Graph.degree_in this key = Throw KeyNotFound
     ∧ Graph.degree_out this key = Throw KeyNotFound
     ∧ Graph.loop this key = Throw KeyNotFound)
  ∧ (is_Some (m_umap this !! key) →
     throws (Graph.at_ this key) = false
     ∧ throws (Graph.degree_in this key) = false
     ∧ throws (Graph.degree_out this key) = false
     ∧ throws (Graph.loop this key) = false).
Proof.
  split; [apply queries_absent |].
  intros [n E].
  destruct (queries_present this key n E) as (-> & -> & -> & b & -> & _).
  done.
Qed.

Lemma queries_throw_exactly_on_absent_key_witness :
  (Graph.at_ Examples.abc "ghost" = Throw KeyNotFound
   ∧ Graph.degree_in Examples.abc "ghost" = Throw KeyNotFound
   ∧ Graph.degree_out Examples.abc "ghost" = Throw KeyNotFound
   ∧ Graph.loop Examples.abc "ghost" = Throw KeyNotFound)
  ∧ (throws (Graph.at_ Examples.abc "C") = false
     ∧ throws (Graph.degree_in Examples.abc "C") = false
     ∧ throws (Graph.degree_out Examples.abc "C") = false
     ∧ throws (Graph.loop Examples.abc "C") = false).
Proof.
  split.
  - apply (proj1 (queries_throw_exactly_on_absent_key Examples.abc "ghost")).
    vm_compute. reflexivity.
  - apply (proj2 (queries_throw_exactly_on_absent_key Examples.abc "C")).
    eexists. vm_compute. reflexivity.
Defined.

(** C5: for a key [key] that is a node of the graph, [degree_in(key)] is the
    number of nodes that have an outgoing edge whose target is [key],
    [degree_out(key)] is the number of outgoing edges of the node at [key],
    and [loop(key)] is true exactly when that node has an edge to [key]
    itself.  In the graph with nodes A, B, C and edges A→B (5), A→C (2),
    B→C (1): [degree_out(A) = 2], [degree_out(C) = 0], [degree_in(C) = 2],
    [degree_in(A) = 0] and [loop(A) = false]. *)
Theorem degrees_and_loop
    `{Countable key_type} {value_type weight_type : Type}
    (this : Graph key_type value_type weight_type) (key : key_type)
    (n : Node key_type value_type weight_type) :
  (m_umap this !! key = Some n →
     Graph.degree_in this key = Return (nodes_with_edge_to this key)
     ∧ Graph.degree_out this key = Return (base.size (m_edge n))
     ∧ ∃ b, Graph.loop this key = Return b
            ∧ (b = true ↔ is_Some (m_edge n !! key)))
  ∧ (Graph.degree_out Examples.abc "A" = Return 2
     ∧ Graph.degree_out Examples.abc "C" = Return 0
     ∧ Graph.degree_in Examples.abc "C" = Return 2
     ∧ Graph.degree_in Examples.abc "A" = Return 0
     ∧ Graph.loop Examples.abc "A" = Return false).
Proof.
  split.
  - intros E. by destruct (queries_present this key n E) as (_ & ? & ? & ?).
  - vm_compute. done.
Qed.

Lemma degrees_and_loop_witness :
  Graph.degree_in Examples.abc "C" = Return (nodes_with_edge_to Examples.abc "C")
  ∧ Graph.degree_out Examples.abc "C" = Return (base.size (∅ : gmap string Z))
  ∧ ∃ b, Graph.loop Examples.abc "C" = Return b
         ∧ (b = true ↔ is_Some ((∅ : gmap string Z) !! "C")).
Proof.
  apply (proj1 (degrees_and_loop Examples.abc "C" (Node.make 0%Z))).
  vm_compute. reflexivity.
Defined.

Example nodes_with_edge_to_C : nodes_with_edge_to Examples.abc "C" = 2.
Proof. vm_compute. reflexivity. Qed.

Example self_loop_scenario :
  Graph.loop Examples.self_loop "A" = Return true
  ∧ Graph.degree_out Examples.self_loop "A" = Return 1.
Proof. vm_compute. done. Qed.

(** ** Node insertion *)
Section node_facts.
Context `{Countable key_type} {value_type weight_type : Type}.
#[local] Abbreviation Node := (Node key_type value_type weight_type).
#[local] Abbreviation Graph := (Graph key_type value_type weight_type).
Implicit Types (this : Graph) (n : Node) (key : key_type) (value : value_type).

Lemma insert_node_absent this key value :
  m_umap this !! key = None →
  Graph.insert_node this key value =
    (mkGraph (<[key := Node.make value]> (m_umap this)),
     ((key, Node.make value), true)).
Proof. intros E. unfold Graph.insert_node. by rewrite (insert_absent _ _ _ E). Qed.

Lemma insert_node_present this key value n :
  m_umap this !! key = Some n →
  Graph.insert_node this key value = (this, ((key, n), false)).
Proof.
  intros E. unfold Graph.insert_node.
  by rewrite (insert_present _ _ _ _ E), Graph_eta.
Qed.

Lemma insert_node_success this key value g' h :
  Graph.insert_node this key value = (g', (h, true)) →
  m_umap this !! key = None.
Proof.
  destruct (m_umap this !! key) as [n|] eqn:E; [| done].
  rewrite (insert_node_present _ _ _ _ E). congruence.
Qed.

Lemma insert_or_assign_node_spec this key value :
  ∃ flag,
    Graph.insert_or_assign_node this key value =
      (mkGraph (<[key := Node.make value]> (m_umap this)),
       ((key, Node.make value), flag))
    ∧ (flag = true ↔ m_umap this !! key = None).
Proof.
  unfold Graph.insert_or_assign_node.
  destruct (insert_or_assign_result (m_umap this) key (Node.make value))
    as (flag & E & Hflag).
  exists flag. split; [| done].
  pose proof (insert_or_assign_map (m_umap this) key (Node.make value)) as E1.
  destruct (umap.insert_or_assign (m_umap this) key (Node.make value)) as [m r].
  simpl in *. by subst.
Qed.
End node_facts.

(** C6: [insert_or_assign_node(k, v2)] puts a fresh node holding [v2] at
    [k], whatever was there: afterwards [at(k)] returns a node whose value
    is [v2] and which has no edge at all, the node map is otherwise the one
    before, and the flag is true exactly when the graph had no node at [k]
    before.
    In particular, after [insert_or_assign_node(k, v1)], any edges inserted
    from [k], and then [insert_or_assign_node(k, v2)], the flag is false,
    the value at [k] is [v2] and the edges are gone. *)
Theorem insert_or_assign_node_replaces
    `{Countable key_type} {value_type weight_type : Type}
    (this : Graph key_type value_type weight_type)
    (k : key_type) (v2 : value_type) :
  ∃ flag,
    Graph.insert_or_assign_node this k v2 =
      (mkGraph (<[k := Node.make v2]> (m_umap this)), ((k, Node.make v2), flag))
    ∧ (flag = true ↔ m_umap this !! k = None)
    ∧ (∃ n, Graph.at_ (Graph.insert_or_assign_node this k v2).1 k = Return n
            ∧ Node.getvalue n = v2
            ∧ Node.getedges n = ∅
            ∧ Node.size n = 0)
    ∧ ∀ v1 : value_type,
        Graph.insert_or_assign_node
          (Graph.insert_or_assign_node this k v1).1 k v2 =
        (mkGraph (<[k := Node.make v2]> (m_umap this)),
         ((k, Node.make v2), false)).
Proof.
  destruct (insert_or_assign_node_spec this k v2) as (flag & E & Hflag).
  exists flag. split; [exact E | split; [exact Hflag | split]].
  - exists (Node.make v2). rewrite E. simpl.
    unfold Graph.at_. simpl.
    rewrite (find_present _ _ (Node.make v2)) by apply lookup_insert_eq.
    repeat split.
  - intros v1.
    destruct (insert_or_assign_node_spec this k v1) as (flag1 & E1 & _).
    rewrite E1. simpl.
    destruct (insert_or_assign_node_spec
                (mkGraph (<[k := Node.make v1]> (m_umap this))) k v2)
      as (flag2 & E2 & Hflag2).
    rewrite E2. simpl in *. rewrite insert_insert_eq.
    destruct flag2; [| done].
    destruct Hflag2 as [Habs _]. specialize (Habs eq_refl).
    by rewrite lookup_insert_eq in Habs.
Qed.

(** The two-step scenario of C6 on a concrete graph: A gets value 1 and
    edges to B and to itself, then is assigned value 2. *)
Example insert_or_assign_node_twice :
  let g1 := (Graph.insert_or_assign_node Examples.abc "A" 1%Z).1 in
  let g2 := Examples.run_edge "A" "A" 4 (Examples.run_edge "A" "B" 3 g1) in
  Graph.degree_out g2 "A" = Return 2
  ∧ (Graph.insert_or_assign_node g2 "A" 2%Z).2 = (("A", Node.make 2%Z), false)
  ∧ Graph.at_ (Graph.insert_or_assign_node g2 "A" 2%Z).1 "A" = Return (Node.make 2%Z)
  ∧ Graph.degree_out (Graph.insert_or_assign_node g2 "A" 2%Z).1 "A" = Return 0.
Proof. vm_compute. done. Qed.

(** C7: when [insert_node(k, v)] succeeds, [find(k)] on the resulting graph
    returns the entry for [k], whose node holds [v]; a second
    [insert_node(k, v2)] returns the flag false with a handle to that same
    entry and leaves the graph as it was, so the value stored at [k] is
    still [v]. *)
Theorem insert_node_then_find
    `{Countable key_type} {value_type weight_type : Type}
    (this g' : Graph key_type value_type weight_type)
    (k : key_type) (v v2 : value_type)
    (h : key_type * Node key_type value_type weight_type) :
  Graph.insert_node this k v = (g', (h, true)) →
  (∃ n, Graph.find g' k = Some (k, n) ∧ Node.getvalue n = v)
  ∧ Graph.insert_node g' k v2 = (g', ((k, Node.make v), false))
  ∧ (∃ n, Graph.find (Graph.insert_node g' k v2).1 k = Some (k, n)
          ∧ Node.getvalue n = v).
Proof.
  intros E.
  pose proof (insert_node_success _ _ _ _ _ E) as Hk.
  rewrite (insert_node_absent _ _ _ Hk) in E. injection E as <- <-.
  set (g' := mkGraph (<[k := Node.make v]> (m_umap this))).
  assert (m_umap g' !! k = Some (Node.make v)) as Hg' by apply lookup_insert_eq.
  assert (Graph.find g' k = Some (k, Node.make v)) as Hfind
    by (unfold Graph.find; by rewrite (find_present _ _ _ Hg')).
  rewrite (insert_node_present _ _ v2 _ Hg'). simpl.
  split; [by exists (Node.make v) |]. split; [done |].
  by exists (Node.make v).
Qed.

Lemma insert_node_then_find_witness :
  (∃ n, Graph.find Examples.only_A "A" = Some ("A", n) ∧ Node.getvalue n = 0%Z)
  ∧ Graph.insert_node Examples.only_A "A" 5%Z
    = (Examples.only_A, (("A", Node.make 0%Z), false))
  ∧ (∃ n, Graph.find (Graph.insert_node Examples.only_A "A" 5%Z).1 "A" = Some ("A", n)
          ∧ Node.getvalue n = 0%Z).
Proof.
  apply (insert_node_then_find Graph.default Examples.only_A "A" 0%Z 5%Z
           ("A", Node.make 0%Z)).
  vm_compute. reflexivity.
Defined.

(** ** Objects: construction, assignment and the two swaps *)
Section store_facts.
Context `{Countable key_type} {value_type weight_type : Type}.
#[local] Abbreviation Graph := (Graph key_type value_type weight_type).
Implicit Types (st : gmap nat Graph) (g : Graph) (this graph : nat).

Lemma alloc_spec st :
  Store.alloc st = (fresh (dom st), <[fresh (dom st) := Graph.default]> st)
  ∧ st !! fresh (dom st) = None.
Proof. split; [done |]. apply not_elem_of_dom, is_fresh. Qed.

Lemma fresh_ne st graph g : st !! graph = Some g → fresh (dom st) ≠ graph.
Proof.
  intros E <-. destruct (alloc_spec st) as [_ F]. congruence.
Qed.

Lemma swap_spec st this graph g1 g2 :
  st !! this = Some g1 → st !! graph = Some g2 →
  Store.swap this graph st = Some (<[graph := g1]> (<[this := g2]> st)).
Proof.
  intros E1 E2. unfold Store.swap. rewrite E1, E2. simpl.
  by rewrite !Graph_eta.
Qed.

Lemma swap_self st this g :
  st !! this = Some g → Store.swap this this st = Some st.
Proof.
  intros E. rewrite (swap_spec _ _ _ _ _ E E).
  by rewrite insert_insert_eq, insert_id.
Qed.

Lemma copy_ctor_spec st graph g :
  st !! graph = Some g →
  Store.copy_ctor graph st = Some (fresh (dom st), <[fresh (dom st) := g]> st).
Proof.
  intros E. pose proof (fresh_ne _ _ _ E) as Hne.
  unfold Store.copy_ctor, Store.copy_body, Store.alloc. rewrite E. simpl.
  rewrite (lookup_insert_ne _ _ graph) by done. rewrite E. simpl.
  rewrite lookup_insert_eq. simpl.
  by rewrite insert_insert_eq, Graph_eta.
Qed.

Lemma move_ctor_spec st graph g :
  st !! graph = Some g →
  Store.move_ctor graph st =
    Some (fresh (dom st), <[graph := Graph.default]> (<[fresh (dom st) := g]> st)).
Proof.
  intros E. pose proof (fresh_ne _ _ _ E) as Hne.
  unfold Store.move_ctor, Store.alloc. rewrite E. simpl.
  rewrite (swap_spec _ _ _ Graph.default g).
  - simpl. by rewrite insert_insert_eq.
  - apply lookup_insert_eq.
  - by rewrite lookup_insert_ne.
Qed.

Lemma call_spec {R} st this g (method : Graph → Graph * R) :
  st !! this = Some g →
  Store.call this method st = Some (<[this := (method g).1]> st, (method g).2).
Proof.
  intros E. unfold Store.call. rewrite E. simpl. by destruct (method g).
Qed.

Lemma free_swap_spec st arg1 arg2 g1 g2 :
  st !! arg1 = Some g1 → st !! arg2 = Some g2 →
  Store.free_swap arg1 arg2 st = Some st.
Proof.
  intros E1 E2. unfold Store.free_swap.
  rewrite (copy_ctor_spec _ _ _ E1). simpl.
  set (graph1 := fresh (dom st)).
  set (st1 := <[graph1 := g1]> st).
  assert (st !! graph1 = None) as F1 by apply alloc_spec.
  assert (st1 !! arg2 = Some g2) as E2'.
  { unfold st1. rewrite lookup_insert_ne; [done |]. by eapply fresh_ne. }
  rewrite (copy_ctor_spec _ _ _ E2'). simpl.
  set (graph2 := fresh (dom st1)).
  assert (st1 !! graph2 = None) as F2 by apply alloc_spec.
  assert (graph1 ≠ graph2) as Hne.
  { intros Heq. rewrite <- Heq in F2. unfold st1 in F2.
    by rewrite lookup_insert_eq in F2. }
  rewrite (swap_spec _ _ _ g1 g2).
  - simpl. f_equal. unfold Store.destroy.
    rewrite delete_insert_eq, delete_insert_ne, delete_insert_eq by done.
    rewrite (delete_insert_id _ _ _ F2). unfold st1.
    by rewrite (delete_insert_id _ _ _ F1).
  - rewrite lookup_insert_ne by done. unfold st1. apply lookup_insert_eq.
  - apply lookup_insert_eq.
Qed.
End store_facts.

(** C8, as the spec words it, fails for move assignment: with a graph
    holding node A at address 0 and a graph holding node B at address 1, the
    move assignment of the graph at 0 to the graph at 1 leaves the source,
    at address 0, holding node B, so the source is not empty. *)
Lemma move_assign_source_not_empty :
  ∃ st', Store.move_assign 1 0 Examples.two_graphs = Some st'
         ∧ st' !! 1 = Some Examples.only_A
         ∧ Graph.empty <$> st' !! 0 = Some false
         ∧ Graph.size <$> st' !! 0 = Some 1.
Proof. eexists. vm_compute. done. Qed.

(** C8 (amended): move construction builds the new graph empty and swaps it
    with the source: after [Graph g2 = std::move(g1)], [g1.empty()] is true
    and [g2] holds the node map of [g1] unchanged.  Move assignment swaps
    the two graphs: after [g2 = std::move(g1)], [g2] holds the node map [g1]
    had and [g1] holds the node map [g2] had, so [g1] is empty exactly when
    [g2] was empty before; assigning a graph to itself changes nothing. *)
Theorem move_swaps_state
    `{Countable key_type} {value_type weight_type : Type}
    (st : gmap nat (Graph key_type value_type weight_type))
    (g1 : Graph key_type value_type weight_type) (src : nat) :
  st !! src = Some g1 →
  (∃ dst st',
      Store.move_ctor src st = Some (dst, st')
      ∧ st !! dst = None
      ∧ st' !! dst = Some g1
      ∧ st' !! src = Some Graph.default
      ∧ Graph.empty <$> st' !! src = Some true
      ∧ ∀ other, other ≠ src → other ≠ dst → st' !! other = st !! other)
  ∧ (∀ dst g2, st !! dst = Some g2 →
      ∃ st',
        Store.move_assign dst src st = Some st'
        ∧ st' !! dst = Some g1
        ∧ st' !! src = Some g2
        ∧ Graph.empty <$> st' !! src = Some (Graph.empty g2)
        ∧ ∀ other, other ≠ src → other ≠ dst → st' !! other = st !! other)
  ∧ Store.move_assign src src st = Some st.
Proof.
  intros E. split; [| split].
  - exists (fresh (dom st)). eexists.
    split; [by apply move_ctor_spec |].
    pose proof (fresh_ne _ _ _ E) as Hne.
    split; [apply alloc_spec |].
    split; [by rewrite lookup_insert_ne, lookup_insert_eq |].
    rewrite lookup_insert_eq.
    split; [done | split; [done |]].
    intros other H1 H2. by rewrite !lookup_insert_ne.
  - intros dst g2 Ed. eexists.
    split; [by apply (swap_spec _ _ _ g2 g1) |].
    assert (<[src:=g2]> (<[dst:=g1]> st) !! dst = Some g1) as ->.
    { destruct (decide (src = dst)) as [-> | Hne].
      - rewrite lookup_insert_eq. congruence.
      - by rewrite lookup_insert_ne, lookup_insert_eq. }
    rewrite lookup_insert_eq.
    split; [done | split; [done | split; [done |]]].
    intros other H1 H2. by rewrite !lookup_insert_ne.
  - by apply (swap_self _ _ g1).
Qed.

Lemma move_swaps_state_witness :
  (∃ dst st',
      Store.move_ctor 0 Examples.two_graphs = Some (dst, st')
      ∧ Examples.two_graphs !! dst = None
      ∧ st' !! dst = Some Examples.only_A
      ∧ st' !! 0 = Some Graph.default
      ∧ Graph.empty <$> st' !! 0 = Some true
      ∧ ∀ other, other ≠ 0 → other ≠ dst → st' !! other = Examples.two_graphs !! other)
  ∧ (∀ dst g2, Examples.two_graphs !! dst = Some g2 →
      ∃ st',
        Store.move_assign dst 0 Examples.two_graphs = Some st'
        ∧ st' !! dst = Some Examples.only_A
        ∧ st' !! 0 = Some g2
        ∧ Graph.empty <$> st' !! 0 = Some (Graph.empty g2)
        ∧ ∀ other, other ≠ 0 → other ≠ dst → st' !! other = Examples.two_graphs !! other)
  ∧ Store.move_assign 0 0 Examples.two_graphs = Some Examples.two_graphs.
Proof.
  apply (move_swaps_state Examples.two_graphs Examples.only_A 0).
  vm_compute. reflexivity.
Defined.

(** C9: the free function [graph::swap(graph1, graph2)] takes both graphs by
    value, so it swaps two copies that die when it returns: a call
    [swap(a, b)] leaves every object of the caller, [a] and [b] included, as
    it was.  The member [a.swap(b)] does exchange the node maps of [a] and
    [b], and touches nothing else. *)
Theorem free_swap_changes_nothing
    `{Countable key_type} {value_type weight_type : Type}
    (st : gmap nat (Graph key_type value_type weight_type))
    (a b : nat) (ga gb : Graph key_type value_type weight_type) :
  st !! a = Some ga →
  st !! b = Some gb →
  Store.free_swap a b st = Some st
  ∧ ∃ st', Store.swap a b st = Some st'
           ∧ st' !! a = Some gb
           ∧ st' !! b = Some ga
           ∧ ∀ other, other ≠ a → other ≠ b → st' !! other = st !! other.
Proof.
  intros Ea Eb. split; [by apply (free_swap_spec _ _ _ ga gb) |].
  eexists. split; [by apply (swap_spec _ _ _ ga gb) |].
  rewrite lookup_insert_eq. split; [| split; [done |]].
  - destruct (decide (b = a)) as [-> | Hne].
    + rewrite lookup_insert_eq. congruence.
    + by rewrite lookup_insert_ne, lookup_insert_eq.
  - intros other H1 H2. by rewrite !lookup_insert_ne.
Qed.

Lemma free_swap_changes_nothing_witness :
  Store.free_swap 0 1 Examples.two_graphs = Some Examples.two_graphs
  ∧ ∃ st', Store.swap 0 1 Examples.two_graphs = Some st'
           ∧ st' !! 0 = Some (Examples.run_node "B" 0 Graph.default)
           ∧ st' !! 1 = Some Examples.only_A
           ∧ ∀ other, other ≠ 0 → other ≠ 1 →
               st' !! other = Examples.two_graphs !! other.
Proof.
  apply (free_swap_changes_nothing Examples.two_graphs 0 1).
  - vm_compute. reflexivity.
  - vm_compute. reflexivity.
Defined.

(** C10: the copy constructor makes a new object holding a copy of the node
    map of [g1]: after [Graph g2 = g1], both hold the nodes and edges of
    [g1], and whatever a method call does to [g2] leaves [g1], its nodes,
    edges and size, as they were.  For example inserting a node under a new
    key into [g2] makes [g2] one node larger and does not change
    [g1.size()]. *)
Theorem copy_is_independent
    `{Countable key_type} {value_type weight_type : Type}
    (st : gmap nat (Graph key_type value_type weight_type))
    (g1 : Graph key_type value_type weight_type) (src : nat) :
  st !! src = Some g1 →
  ∃ dst st1,
    Store.copy_ctor src st = Some (dst, st1)
    ∧ st !! dst = None
    ∧ st1 !! dst = Some g1
    ∧ st1 !! src = Some g1
    ∧ (∀ (R : Type) (method : Graph key_type value_type weight_type
                              → Graph key_type value_type weight_type * R),
         ∃ st2 r,
           Store.call dst method st1 = Some (st2, r)
           ∧ st2 !! dst = Some (method g1).1
           ∧ st2 !! src = Some g1)
    ∧ (∀ k v, m_umap g1 !! k = None →
         ∃ st2 r,
           Store.call dst (λ g, Graph.insert_node g k v) st1 = Some (st2, r)
           ∧ Graph.size <$> st2 !! dst = Some (S (Graph.size g1))
           ∧ Graph.size <$> st2 !! src = Some (Graph.size g1)
           ∧ st2 !! src = Some g1).
Proof.
  intros E. pose proof (fresh_ne _ _ _ E) as Hne.
  exists (fresh (dom st)), (<[fresh (dom st) := g1]> st).
  split; [by apply copy_ctor_spec |].
  split; [apply alloc_spec |].
  assert (<[fresh (dom st) := g1]> st !! fresh (dom st) = Some g1) as Ed
    by apply lookup_insert_eq.
  assert (<[fresh (dom st) := g1]> st !! src = Some g1) as Es
    by (by rewrite lookup_insert_ne).
  split; [done | split; [done |]].
  split.
  - intros R method. eexists _, _.
    split; [by apply call_spec |].
    by rewrite lookup_insert_eq, lookup_insert_ne.
  - intros k v Hk. eexists _, _.
    split; [by apply call_spec |].
    rewrite lookup_insert_eq, lookup_insert_ne by done. rewrite Es.
    split; [| done].
    rewrite (insert_node_absent _ _ _ Hk). simpl.
    unfold Graph.size, umap.size. simpl.
    by rewrite map_size_insert_None.
Qed.

Lemma copy_is_independent_witness :
  ∃ dst st1,
    Store.copy_ctor 0 Examples.two_graphs = Some (dst, st1)
    ∧ Examples.two_graphs !! dst = None
    ∧ st1 !! dst = Some Examples.only_A
    ∧ st1 !! 0 = Some Examples.only_A
    ∧ (∀ (R : Type) (method : Graph string Z Z → Graph string Z Z * R),
         ∃ st2 r,
           Store.call dst method st1 = Some (st2, r)
           ∧ st2 !! dst = Some (method Examples.only_A).1
           ∧ st2 !! 0 = Some Examples.only_A)
    ∧ (∀ k v, m_umap Examples.only_A !! k = None →
         ∃ st2 r,
           Store.call dst (λ g, Graph.insert_node g k v) st1 = Some (st2, r)
           ∧ Graph.size <$> st2 !! dst = Some (S (Graph.size Examples.only_A))
           ∧ Graph.size <$> st2 !! 0 = Some (Graph.size Examples.only_A)
           ∧ st2 !! 0 = Some Examples.only_A).
Proof.
  apply (copy_is_independent Examples.two_graphs Examples.only_A 0).
  vm_compute. reflexivity.
Defined.

Example copy_then_insert :
  ('(g2, st1) ← Store.copy_ctor 0 Examples.two_graphs;
   '(st2, r) ← Store.call g2 (λ g, Graph.insert_node g "Z" 9%Z) st1;
   Some (Graph.size <$> st2 !! 0, Graph.size <$> st2 !! g2))
  = Some (Some 1, Some 2).
Proof. vm_compute. reflexivity. Qed.

(** * Further properties of the container *)

(** ** Emptiness, size and clearing *)
Section container_facts.
Context `{Countable key_type} {value_type weight_type : Type}.
#[local] Abbreviation Node := (Node key_type value_type weight_type).
#[local] Abbreviation Graph := (Graph key_type value_type weight_type).
Implicit Types (this : Graph) (n : Node) (key : key_type) (value : value_type).

Lemma at_throws_iff this key :
  Graph.at_ this key = Throw KeyNotFound ↔ m_umap this !! key = None.
Proof.
  split.
  - destruct (m_umap this !! key) as [n|] eqn:E; [| done].
    destruct (queries_present this key n E) as (-> & _). done.
  - intros E. by destruct (queries_absent this key E).
Qed.

(** X1: [empty()] is true exactly when [size()] is 0, exactly when [at]
    throws for every key, and exactly when an iteration yields nothing;
    [clear()] leaves a graph for which all of this holds. *)
Theorem empty_iff_no_node this :
  (Graph.empty this = true ↔ Graph.size this = 0)
  ∧ (Graph.empty this = true ↔ ∀ key, Graph.at_ this key = Throw KeyNotFound)
  ∧ (Graph.empty this = true ↔ Graph.entries this = [])
  ∧ Graph.empty (Graph.clear this) = true.
Proof.
  assert (Graph.empty this = true ↔ m_umap this = ∅) as Hempty.
  { unfold Graph.empty, umap.empty. rewrite Nat.eqb_eq. apply map_size_empty_iff. }
  split; [| split; [| split]].
  - unfold Graph.empty, Graph.size, umap.empty, umap.size. apply Nat.eqb_eq.
  - rewrite Hempty, map_empty. split; intros E key; by apply at_throws_iff.
  - rewrite Hempty. unfold Graph.entries. symmetry. apply map_to_list_empty_iff.
  - unfold Graph.clear, Graph.empty, umap.clear, umap.empty. simpl.
    by rewrite map_size_empty.
Qed.

(** X2: for a node, [empty()] is true exactly when [size()] is 0 and exactly
    when it has no edge to any key; [clear()] removes every edge and keeps
    the value. *)
Theorem node_empty_and_clear n :
  (Node.empty n = true ↔ Node.size n = 0)
  ∧ (Node.empty n = true ↔ ∀ key, m_edge n !! key = None)
  ∧ (Node.empty n = true ↔ Node.entries n = [])
  ∧ Node.empty (Node.clear n) = true
  ∧ Node.getvalue (Node.clear n) = Node.getvalue n
  ∧ Node.clear n = Node.make (Node.getvalue n).
Proof.
  assert (Node.empty n = true ↔ m_edge n = ∅) as Hempty.
  { unfold Node.empty, umap.empty. rewrite Nat.eqb_eq. apply map_size_empty_iff. }
  split; [| split; [| split; [| split; [| split]]]].
  - unfold Node.empty, Node.size, umap.empty, umap.size. apply Nat.eqb_eq.
  - by rewrite Hempty, map_empty.
  - rewrite Hempty. unfold Node.entries. symmetry. apply map_to_list_empty_iff.
  - unfold Node.clear, Node.empty, umap.clear, umap.empty. simpl.
    by rewrite map_size_empty.
  - reflexivity.
  - reflexivity.
Qed.

(** X3: [operator[]] never throws.  For a key that has a node it returns
    that node and leaves the graph as it was; for a key that has none it
    inserts a default-constructed node, without edges, so the graph grows by
    one.  Either way [at(key)] afterwards returns the node [operator[]]
    returned, and no other key is touched. *)
Theorem index_access_or_create `{Inhabited value_type} this key :
  Graph.at_ (Graph.index this key).1 key = Return (Graph.index this key).2
  ∧ delete key (m_umap (Graph.index this key).1) = delete key (m_umap this)
  ∧ match m_umap this !! key with
    | Some n => Graph.index this key = (this, n)
    | None =>
        (Graph.index this key).2 = Node.default
        ∧ Node.size (Graph.index this key).2 = 0
        ∧ Graph.size (Graph.index this key).1 = S (Graph.size this)
    end.
Proof.
  unfold Graph.index. destruct (m_umap this !! key) as [n|] eqn:E; simpl.
  - split; [| done]. by destruct (queries_present this key n E) as (-> & _).
  - split; [| split; [| split; [done | split]]].
    + unfold Graph.at_. simpl.
      by rewrite (find_present _ _ Node.default) by apply lookup_insert_eq.
    + by rewrite delete_insert_eq.
    + unfold Node.size, umap.size. simpl. apply map_size_empty.
    + unfold Graph.size, umap.size. simpl. by apply map_size_insert_None.
Qed.

(** X4: [insert_node] and [insert_or_assign_node] return a handle to the
    entry that the resulting graph stores at [key]; the graph grows by one
    node when the flag is true and keeps its size when it is false; no other
    key is touched.  [insert_node] returns false exactly when [key] already
    has a node, and then the graph, that node's value and edges included, is
    left as it was. *)
Theorem node_insertions_effect this key value :
  (∃ n flag,
      Graph.insert_node this key value = ((Graph.insert_node this key value).1, ((key, n), flag))
      ∧ m_umap (Graph.insert_node this key value).1 !! key = Some n
      ∧ (flag = false ↔ is_Some (m_umap this !! key))
      ∧ (if flag then n = Node.make value
         else (Graph.insert_node this key value).1 = this)
      ∧ Graph.size (Graph.insert_node this key value).1
          = (if flag then S (Graph.size this) else Graph.size this)
      ∧ delete key (m_umap (Graph.insert_node this key value).1)
          = delete key (m_umap this))
  ∧ (∃ flag,
      Graph.insert_or_assign_node this key value
        = ((Graph.insert_or_assign_node this key value).1,
           ((key, Node.make value), flag))
      ∧ m_umap (Graph.insert_or_assign_node this key value).1 !! key
          = Some (Node.make value)
      ∧ Graph.size (Graph.insert_or_assign_node this key value).1
          = (if flag then S (Graph.size this) else Graph.size this)
      ∧ delete key (m_umap (Graph.insert_or_assign_node this key value).1)
          = delete key (m_umap this)).
Proof.
  split.
  - destruct (m_umap this !! key) as [n|] eqn:E.
    + exists n, false. rewrite (insert_node_present _ _ _ _ E). simpl.
      repeat split; eauto.
    + exists (Node.make value), true. rewrite (insert_node_absent _ _ _ E). simpl.
      unfold Graph.size, umap.size. simpl.
      rewrite lookup_insert_eq, delete_insert_eq, (map_size_insert_None _ _ _ E).
      repeat split; try done; by intros [? ?].
  - destruct (insert_or_assign_node_spec this key value) as (flag & E & Hflag).
    exists flag. rewrite E. simpl.
    unfold Graph.size, umap.size. simpl.
    rewrite lookup_insert_eq, delete_insert_eq.
    repeat split.
    destruct flag.
    + apply map_size_insert_None. by apply Hflag.
    + destruct (m_umap this !! key) as [n|] eqn:En.
      * apply map_size_insert_Some. rewrite En. by eexists.
      * destruct Hflag as [_ Hflag]. by specialize (Hflag eq_refl).
Qed.
End container_facts.

(** ** What the edge insertions change *)
Section edge_effects.
Context `{Countable key_type} {value_type weight_type : Type}.
#[local] Abbreviation Node := (Node key_type value_type weight_type).
#[local] Abbreviation Graph := (Graph key_type value_type weight_type).
Implicit Types (this g : Graph) (n : Node) (source target key : key_type)
  (weight : weight_type) (m : gmap key_type Node).

(** The graph in which the node [n] at [source] has got the edge to
    [target] with [weight]. *)
#[local] Abbreviation with_edge this source n target weight :=
  (mkGraph (<[source := mkNode (m_value n)
                          (<[target := weight]> (m_edge n))]> (m_umap this))).

Lemma insert_edge_shape this source target weight g' r :
  Graph.insert_edge this (source, target) weight = (g', r) →
  (g' = this
   ∧ (r = Throw KeyNotFound
      ∨ ∃ n w0, m_umap this !! source = Some n ∧ m_edge n !! target = Some w0
                ∧ r = Return ((target, w0), false)))
  ∨ ∃ n, m_umap this !! source = Some n
         ∧ is_Some (m_umap this !! target)
         ∧ m_edge n !! target = None
         ∧ g' = with_edge this source n target weight
         ∧ r = Return ((target, weight), true).
Proof.
  intros E.
  destruct (m_umap this !! source) as [n|] eqn:Es.
  2:{ rewrite (insert_edge_no_source _ _ _ _ Es) in E. injection E as <- <-.
      left. split; [done | by left]. }
  destruct (m_umap this !! target) as [n2|] eqn:Et.
  2:{ rewrite (insert_edge_no_target _ _ _ _ Et) in E. injection E as <- <-.
      left. split; [done | by left]. }
  rewrite (insert_edge_delegates _ _ _ _ n Es) in E by (rewrite Et; eauto).
  destruct (m_edge n !! target) as [w0|] eqn:En.
  - rewrite (Node_insert_edge_old _ _ _ _ En) in E.
    rewrite (store_second_same _ _ _ Es) in E. injection E as <- <-.
    left. split; [done |]. right. by exists n, w0.
  - rewrite (Node_insert_edge_new _ _ _ En) in E. injection E as <- <-.
    right. exists n. repeat split; eauto.
Qed.

Lemma insert_or_assign_edge_shape this source target weight g' r :
  Graph.insert_or_assign_edge this (source, target) weight = (g', r) →
  (m_umap this !! source = None ∧ g' = this ∧ r = Throw KeyNotFound)
  ∨ ∃ n flag, m_umap this !! source = Some n
              ∧ g' = with_edge this source n target weight
              ∧ r = Return ((target, weight), flag)
              ∧ (flag = true ↔ m_edge n !! target = None).
Proof.
  intros E.
  destruct (m_umap this !! source) as [n|] eqn:Es.
  - rewrite (insert_or_assign_edge_delegates _ _ _ _ n Es) in E.
    destruct (Node_insert_or_assign_edge_spec n target weight)
      as (flag & En & Hflag).
    rewrite En in E. injection E as <- <-.
    right. by exists n, flag.
  - rewrite (insert_or_assign_edge_no_source _ _ _ _ Es) in E.
    injection E as <- <-. by left.
Qed.

(** Both insertions leave the graph alone or give one node one edge. *)
Lemma edge_insertion_shape this source target weight g' :
  g' = (Graph.insert_edge this (source, target) weight).1
  ∨ g' = (Graph.insert_or_assign_edge this (source, target) weight).1 →
  g' = this
  ∨ ∃ n, m_umap this !! source = Some n
         ∧ g' = with_edge this source n target weight.
Proof.
  intros [-> | ->].
  - destruct (Graph.insert_edge this (source, target) weight) as [g' r] eqn:E.
    destruct (insert_edge_shape _ _ _ _ _ _ E)
      as [[-> _] | (n & Es & _ & _ & -> & _)]; [by left |].
    right. by exists n.
  - destruct (Graph.insert_or_assign_edge this (source, target) weight)
      as [g' r] eqn:E.
    destruct (insert_or_assign_edge_shape _ _ _ _ _ _ E)
      as [(_ & -> & _) | (n & flag & Es & -> & _)]; [by left |].
    right. by exists n.
Qed.

Lemma with_edge_frame this source target weight n :
  m_umap this !! source = Some n →
  Graph.size (with_edge this source n target weight) = Graph.size this
  ∧ (∀ key, is_Some (m_umap (with_edge this source n target weight) !! key)
            ↔ is_Some (m_umap this !! key))
  ∧ (∀ key, Node.getvalue <$> m_umap (with_edge this source n target weight) !! key
            = Node.getvalue <$> m_umap this !! key)
  ∧ (∀ key tgt, (key, tgt) ≠ (source, target) →
       m_umap (with_edge this source n target weight) !! key
         ≫= (λ n', m_edge n' !! tgt)
       = m_umap this !! key ≫= (λ n', m_edge n' !! tgt)).
Proof.
  intros Es. simpl. split; [| split; [| split]].
  - unfold Graph.size, umap.size. simpl.
    apply map_size_insert_Some. rewrite Es. by eexists.
  - intros key. destruct (decide (key = source)) as [-> | Hne].
    + rewrite lookup_insert_eq, Es. split; by eexists.
    + by rewrite lookup_insert_ne.
  - intros key. destruct (decide (key = source)) as [-> | Hne].
    + by rewrite lookup_insert_eq, Es.
    + by rewrite lookup_insert_ne.
  - intros key tgt Hne. destruct (decide (key = source)) as [-> | Hk].
    + rewrite lookup_insert_eq, Es. simpl.
      apply lookup_insert_ne. congruence.
    + by rewrite lookup_insert_ne.
Qed.

Lemma edge_insertion_frame this source target weight g' :
  g' = (Graph.insert_edge this (source, target) weight).1
  ∨ g' = (Graph.insert_or_assign_edge this (source, target) weight).1 →
  Graph.size g' = Graph.size this
  ∧ (∀ key, is_Some (m_umap g' !! key) ↔ is_Some (m_umap this !! key))
  ∧ (∀ key, Node.getvalue <$> m_umap g' !! key
            = Node.getvalue <$> m_umap this !! key)
  ∧ (∀ key tgt, (key, tgt) ≠ (source, target) →
       m_umap g' !! key ≫= (λ n', m_edge n' !! tgt)
       = m_umap this !! key ≫= (λ n', m_edge n' !! tgt)).
Proof.
  intros Hg'.
  destruct (edge_insertion_shape _ _ _ _ _ Hg') as [-> | (n & Es & ->)].
  - done.
  - by apply with_edge_frame.
Qed.

(** X5: [insert_edge] and [insert_or_assign_edge] never add or remove a
    node and never change a node's value: the graph keeps its size and its
    keys, every node keeps its value, and every edge other than the one from
    [source] to [target] keeps its weight or stays absent. *)
Theorem edge_insertions_touch_one_edge this source target weight :
  (Graph.size (Graph.insert_edge this (source, target) weight).1
     = Graph.size this
   ∧ (∀ key, is_Some (m_umap (Graph.insert_edge this (source, target) weight).1 !! key)
             ↔ is_Some (m_umap this !! key))
   ∧ (∀ key, Node.getvalue
               <$> m_umap (Graph.insert_edge this (source, target) weight).1 !! key
             = Node.getvalue <$> m_umap this !! key)
   ∧ (∀ key tgt, (key, tgt) ≠ (source, target) →
        m_umap (Graph.insert_edge this (source, target) weight).1 !! key
          ≫= (λ n', m_edge n' !! tgt)
        = m_umap this !! key ≫= (λ n', m_edge n' !! tgt)))
  ∧ (Graph.size (Graph.insert_or_assign_edge this (source, target) weight).1
       = Graph.size this
     ∧ (∀ key, is_Some (m_umap (Graph.insert_or_assign_edge this (source, target) weight).1 !! key)
               ↔ is_Some (m_umap this !! key))
     ∧ (∀ key, Node.getvalue
                 <$> m_umap (Graph.insert_or_assign_edge this (source, target) weight).1 !! key
               = Node.getvalue <$> m_umap this !! key)
     ∧ (∀ key tgt, (key, tgt) ≠ (source, target) →
          m_umap (Graph.insert_or_assign_edge this (source, target) weight).1 !! key
            ≫= (λ n', m_edge n' !! tgt)
          = m_umap this !! key ≫= (λ n', m_edge n' !! tgt))).
Proof.
  split; apply (edge_insertion_frame this source target weight); [by left | by right].
Qed.

(** X6: a value the edge insertions return carries a handle to the edge
    that the resulting graph stores from [source] to [target]: its key is
    [target] and its weight is the one stored.  For [insert_or_assign_edge]
    that weight is always the argument. *)
Theorem edge_handle_is_stored_edge this source target weight g' handle flag :
  (Graph.insert_edge this (source, target) weight = (g', Return (handle, flag))
   → handle.1 = target
     ∧ m_umap g' !! source ≫= (λ n', m_edge n' !! target) = Some handle.2)
  ∧ (Graph.insert_or_assign_edge this (source, target) weight
       = (g', Return (handle, flag))
     → handle = (target, weight)
       ∧ m_umap g' !! source ≫= (λ n', m_edge n' !! target) = Some weight).
Proof.
  split; intros E.
  - destruct (insert_edge_shape _ _ _ _ _ _ E)
      as [[-> [Hr | (n & w0 & Es & En & Hr)]] | (n & Es & _ & En & -> & Hr)];
      [done | |]; injection Hr as -> ->; simpl.
    + split; [done |]. by rewrite Es.
    + split; [done |]. rewrite lookup_insert_eq. simpl. apply lookup_insert_eq.
  - destruct (insert_or_assign_edge_shape _ _ _ _ _ _ E)
      as [(_ & _ & Hr) | (n & flag' & Es & -> & Hr & _)]; [done |].
    injection Hr as -> ->. simpl.
    split; [done |]. rewrite lookup_insert_eq. simpl. apply lookup_insert_eq.
Qed.
End edge_effects.

Lemma edge_insertions_touch_one_edge_witness :
  m_umap (Graph.insert_edge Examples.abc ("C", "A") 4%Z).1 !! "A"
    ≫= (λ n', m_edge n' !! "B")
  = m_umap Examples.abc !! "A" ≫= (λ n', m_edge n' !! "B")
  ∧ m_umap (Graph.insert_or_assign_edge Examples.abc ("A", "B") 4%Z).1 !! "A"
      ≫= (λ n', m_edge n' !! "C")
    = m_umap Examples.abc !! "A" ≫= (λ n', m_edge n' !! "C").
Proof.
  split.
  - apply (edge_insertions_touch_one_edge Examples.abc "C" "A" 4%Z). done.
  - apply (edge_insertions_touch_one_edge Examples.abc "A" "B" 4%Z). done.
Defined.

Lemma edge_handle_is_stored_edge_witness :
  (("B", 5%Z).1 = "B"
   ∧ m_umap Examples.abc !! "A" ≫= (λ n', m_edge n' !! "B") = Some 5%Z)
  ∧ (("B", 4%Z) = ("B", 4%Z)
     ∧ m_umap (Graph.insert_or_assign_edge Examples.abc ("A", "B") 4%Z).1 !! "A"
         ≫= (λ n', m_edge n' !! "B") = Some 4%Z).
Proof.
  split.
  - apply (proj1 (edge_handle_is_stored_edge Examples.abc "A" "B" 9%Z
                    Examples.abc ("B", 5%Z) false)).
    vm_compute. reflexivity.
  - apply (proj2 (edge_handle_is_stored_edge Examples.abc "A" "B" 4%Z
                    (Graph.insert_or_assign_edge Examples.abc ("A", "B") 4%Z).1
                    ("B", 4%Z) false)).
    vm_compute. reflexivity.
Defined.

(** ** Degrees and loops after an edge insertion *)
Section degree_effects.
Context `{Countable key_type} {value_type weight_type : Type}.
#[local] Abbreviation Node := (Node key_type value_type weight_type).
#[local] Abbreviation Graph := (Graph key_type value_type weight_type).
Implicit Types (this g : Graph) (n : Node) (source target key : key_type)
  (weight : weight_type) (m : gmap key_type Node)
  (P : key_type * Node → Prop).

Lemma degree_in_eq this key :
  Graph.degree_in this key =
    match m_umap this !! key with
    | Some _ => Return (nodes_with_edge_to this key)
    | None => Throw KeyNotFound
    end.
Proof.
  destruct (m_umap this !! key) as [n|] eqn:E.
  - by destruct (queries_present this key n E) as (_ & -> & _).
  - by destruct (queries_absent this key E) as (_ & -> & _).
Qed.

Lemma degree_out_eq this key :
  Graph.degree_out this key =
    match m_umap this !! key with
    | Some n => Return (base.size (m_edge n))
    | None => Throw KeyNotFound
    end.
Proof.
  destruct (m_umap this !! key) as [n|] eqn:E.
  - by destruct (queries_present this key n E) as (_ & _ & -> & _).
  - by destruct (queries_absent this key E) as (_ & _ & -> & _).
Qed.

Lemma loop_eq this key :
  Graph.loop this key =
    match m_umap this !! key with
    | Some n => Return (bool_decide (is_Some (m_edge n !! key)))
    | None => Throw KeyNotFound
    end.
Proof.
  destruct (m_umap this !! key) as [n|] eqn:E.
  - destruct (queries_present this key n E) as (_ & _ & _ & b & -> & Hb).
    f_equal. destruct b.
    + symmetry. apply bool_decide_eq_true. by apply Hb.
    + symmetry. apply bool_decide_eq_false. intros Hn. by apply Hb in Hn.
  - by destruct (queries_absent this key E) as (_ & _ & _ & ->).
Qed.

Lemma size_filter_replace P `{!∀ x, Decision (P x)} m key n n' :
  m !! key = Some n → (P (key, n) ↔ P (key, n')) →
  base.size (filter P (<[key := n']> m)) = base.size (filter P m).
Proof.
  intros E HP. destruct (decide (P (key, n'))) as [Hn' | Hn'].
  - rewrite map_filter_insert_True by done.
    apply map_size_insert_Some. exists n.
    apply map_lookup_filter_Some. split; [done | by apply HP].
  - rewrite map_filter_insert_False by done.
    rewrite map_filter_delete_not; [done |].
    intros y Ey. rewrite E in Ey. injection Ey as <-. by rewrite HP.
Qed.

Lemma size_filter_gain P `{!∀ x, Decision (P x)} m key n n' :
  m !! key = Some n → ¬ P (key, n) → P (key, n') →
  base.size (filter P (<[key := n']> m)) = S (base.size (filter P m)).
Proof.
  intros E Hn Hn'. rewrite map_filter_insert_True by done.
  apply map_size_insert_None. apply map_lookup_filter_None. right.
  intros y Ey. rewrite E in Ey. by injection Ey as <-.
Qed.

(** X7: when [insert_edge] returns the flag true, [degree_out(source)] and
    [degree_in(target)] have each grown by exactly one, and the out-degree
    of every other key and the in-degree of every other key are what they
    were. *)
Theorem insert_edge_raises_degrees this source target weight g' handle :
  Graph.insert_edge this (source, target) weight = (g', Return (handle, true)) →
  ∃ outs ins,
    Graph.degree_out this source = Return outs
    ∧ Graph.degree_out g' source = Return (S outs)
    ∧ Graph.degree_in this target = Return ins
    ∧ Graph.degree_in g' target = Return (S ins)
    ∧ (∀ key, key ≠ source → Graph.degree_out g' key = Graph.degree_out this key)
    ∧ (∀ key, key ≠ target → Graph.degree_in g' key = Graph.degree_in this key).
Proof.
  intros E.
  destruct (insert_edge_shape _ _ _ _ _ _ E)
    as [[_ [Hr | (n & w0 & _ & _ & Hr)]] | (n & Es & [n2 Et] & En & -> & _)];
    [done | done |].
  destruct (with_edge_frame this source target weight n Es) as (_ & Hkeys & _).
  exists (base.size (m_edge n)), (nodes_with_edge_to this target).
  rewrite !degree_out_eq, !degree_in_eq. simpl.
  rewrite lookup_insert_eq, Es, Et. simpl.
  split; [done |].
  split; [by rewrite map_size_insert_None |].
  split; [done |].
  split.
  - destruct (proj2 (Hkeys target)) as [n3 E3]; [by eexists |].
    simpl in E3. rewrite E3.
    f_equal. unfold nodes_with_edge_to. simpl.
    apply (size_filter_gain _ _ _ n); [done | |].
    + unfold has_edge_to. simpl. rewrite En. by intros [? ?].
    + unfold has_edge_to. simpl. rewrite lookup_insert_eq. by eexists.
  - split.
    + intros key Hne. rewrite !degree_out_eq. simpl.
      by rewrite lookup_insert_ne.
    + intros key Hne. rewrite !degree_in_eq. simpl.
      destruct (decide (key = source)) as [-> | Hks].
      * rewrite lookup_insert_eq, Es. f_equal.
        unfold nodes_with_edge_to. simpl.
        apply (size_filter_replace _ _ _ n); [done |].
        unfold has_edge_to. simpl. by rewrite lookup_insert_ne.
      * rewrite lookup_insert_ne by done.
        destruct (m_umap this !! key); [| done]. f_equal.
        unfold nodes_with_edge_to. simpl.
        apply (size_filter_replace _ _ _ n); [done |].
        unfold has_edge_to. simpl. by rewrite lookup_insert_ne.
Qed.

(** X8: after an edge insertion from a key to itself has returned,
    [loop] of that key is true; an edge insertion between two different
    keys changes [loop] of no key. *)
Theorem edge_insertions_and_loop this source target key weight g' r :
  (Graph.insert_edge this (key, key) weight = (g', Return r)
   → Graph.loop g' key = Return true)
  ∧ (Graph.insert_or_assign_edge this (key, key) weight = (g', Return r)
     → Graph.loop g' key = Return true)
  ∧ (source ≠ target →
     Graph.loop (Graph.insert_edge this (source, target) weight).1 key
       = Graph.loop this key
     ∧ Graph.loop (Graph.insert_or_assign_edge this (source, target) weight).1 key
       = Graph.loop this key).
Proof.
  split; [| split].
  - intros E. rewrite loop_eq.
    destruct (insert_edge_shape _ _ _ _ _ _ E)
      as [[-> [Hr | (n & w0 & Es & En & _)]] | (n & Es & _ & _ & -> & _)];
      [done | |].
    + rewrite Es. f_equal. apply bool_decide_eq_true. rewrite En. by eexists.
    + simpl. rewrite lookup_insert_eq. simpl. f_equal.
      apply bool_decide_eq_true. rewrite lookup_insert_eq. by eexists.
  - intros E. rewrite loop_eq.
    destruct (insert_or_assign_edge_shape _ _ _ _ _ _ E)
      as [(_ & _ & Hr) | (n & flag & Es & -> & _)]; [done |].
    simpl. rewrite lookup_insert_eq. simpl. f_equal.
    apply bool_decide_eq_true. rewrite lookup_insert_eq. by eexists.
  - intros Hne.
    assert (∀ g', g' = (Graph.insert_edge this (source, target) weight).1
                  ∨ g' = (Graph.insert_or_assign_edge this (source, target) weight).1
                  → Graph.loop g' key = Graph.loop this key) as Hboth.
    { intros g0 Hg0. rewrite !loop_eq.
      destruct (edge_insertion_frame _ _ _ _ _ Hg0) as (_ & Hkeys & _ & Hedges).
      specialize (Hkeys key). specialize (Hedges key key).
      destruct (m_umap g0 !! key) as [n0|], (m_umap this !! key) as [n|];
        simpl in *.
      - rewrite Hedges by congruence. done.
      - destruct Hkeys as [Hk _]. by destruct Hk; [eexists |].
      - destruct Hkeys as [_ Hk]. by destruct Hk; [eexists |].
      - done. }
    split; apply Hboth; [by left | by right].
Qed.
End degree_effects.

Lemma insert_edge_raises_degrees_witness :
  ∃ outs ins,
    Graph.degree_out Examples.only_A "A" = Return outs
    ∧ Graph.degree_out Examples.self_loop "A" = Return (S outs)
    ∧ Graph.degree_in Examples.only_A "A" = Return ins
    ∧ Graph.degree_in Examples.self_loop "A" = Return (S ins)
    ∧ (∀ key, key ≠ "A" →
         Graph.degree_out Examples.self_loop key = Graph.degree_out Examples.only_A key)
    ∧ (∀ key, key ≠ "A" →
         Graph.degree_in Examples.self_loop key = Graph.degree_in Examples.only_A key).
Proof.
  apply (insert_edge_raises_degrees Examples.only_A "A" "A" 7%Z
           Examples.self_loop ("A", 7%Z)).
  vm_compute. reflexivity.
Defined.

Lemma edge_insertions_and_loop_witness :
  Graph.loop Examples.self_loop "A" = Return true
  ∧ Graph.loop (Graph.insert_or_assign_edge Examples.only_A ("A", "A") 3%Z).1 "A"
    = Return true
  ∧ Graph.loop (Graph.insert_edge Examples.abc ("C", "A") 3%Z).1 "C"
    = Graph.loop Examples.abc "C".
Proof.
  split; [| split].
  - apply (proj1 (edge_insertions_and_loop Examples.only_A "A" "A" "A" 7%Z
                    Examples.self_loop (("A", 7%Z), true))).
    vm_compute. reflexivity.
  - apply (proj1 (proj2 (edge_insertions_and_loop Examples.only_A "A" "A" "A" 3%Z
                    (Graph.insert_or_assign_edge Examples.only_A ("A", "A") 3%Z).1
                    (("A", 3%Z), true)))).
    vm_compute. reflexivity.
  - apply (proj2 (proj2 (edge_insertions_and_loop Examples.abc "C" "A" "C" 3%Z
                    Examples.abc (("A", 3%Z), true)))).
    done.
Defined.

(** ** Inserting the same edge twice *)
Section write_order.
Context `{Countable key_type} {value_type weight_type : Type}.
#[local] Abbreviation Node := (Node key_type value_type weight_type).
#[local] Abbreviation Graph := (Graph key_type value_type weight_type).
Implicit Types (this g : Graph) (n : Node) (source target key : key_type)
  (w : weight_type).

(** X9: the first weight wins with [insert_edge], the last one with
    [insert_or_assign_edge].  Once [insert_edge] has returned for an edge, a
    second [insert_edge] for the same edge with any weight changes nothing
    and returns the flag false with the same handle.  Two
    [insert_or_assign_edge] calls for the same edge leave the graph that the
    second call alone would give, and when [source] is a node the second
    call returns the flag false. *)
Theorem repeated_edge_insertion this source target w1 w2 :
  (∀ g1 handle flag,
     Graph.insert_edge this (source, target) w1 = (g1, Return (handle, flag)) →
     Graph.insert_edge g1 (source, target) w2 = (g1, Return (handle, false)))
  ∧ (Graph.insert_or_assign_edge
       (Graph.insert_or_assign_edge this (source, target) w1).1
       (source, target) w2).1
    = (Graph.insert_or_assign_edge this (source, target) w2).1
  ∧ (is_Some (m_umap this !! source) →
     (Graph.insert_or_assign_edge
        (Graph.insert_or_assign_edge this (source, target) w1).1
        (source, target) w2).2
     = Return ((target, w2), false)).
Proof.
  split; [| split].
  - intros g1 handle flag E.
    assert (is_Some (m_umap this !! target)) as Ht.
    { destruct (m_umap this !! target) eqn:Et; [by eexists |].
      by rewrite (insert_edge_no_target _ _ _ _ Et) in E. }
    destruct (insert_edge_shape _ _ _ _ _ _ E)
      as [[-> [Hr | (n & w0 & Es & En & Hr)]] | (n & Es & _ & En & -> & Hr)];
      [done | |]; injection Hr as -> ->.
    + rewrite (insert_edge_delegates _ _ _ _ n Es Ht).
      by rewrite (Node_insert_edge_old _ _ _ _ En), (store_second_same _ _ _ Es).
    + destruct (with_edge_frame this source target w1 n Es) as (_ & Hkeys & _).
      apply Hkeys in Ht.
      rewrite (insert_edge_delegates _ _ _ _
                 (mkNode (m_value n) (<[target := w1]> (m_edge n))))
        by (done || apply lookup_insert_eq).
      rewrite (Node_insert_edge_old _ _ _ w1) by apply lookup_insert_eq.
      by rewrite store_second_same by apply lookup_insert_eq.
  - destruct (m_umap this !! source) as [n|] eqn:Es.
    + rewrite (insert_or_assign_edge_delegates this _ _ w2 n Es).
      rewrite (insert_or_assign_edge_delegates this _ _ w1 n Es).
      destruct (Node_insert_or_assign_edge_spec n target w1) as (f1 & -> & _).
      destruct (Node_insert_or_assign_edge_spec n target w2) as (f2 & -> & _).
      simpl.
      rewrite (insert_or_assign_edge_delegates _ _ _ _
                 (mkNode (m_value n) (<[target := w1]> (m_edge n))))
        by apply lookup_insert_eq.
      destruct (Node_insert_or_assign_edge_spec
                  (mkNode (m_value n) (<[target := w1]> (m_edge n))) target w2)
        as (f3 & -> & _).
      simpl. unfold Graph.store_second. simpl.
      by rewrite !insert_insert_eq.
    + by rewrite (insert_or_assign_edge_no_source this _ _ w1 Es).
  - intros [n Es].
    rewrite (insert_or_assign_edge_delegates this _ _ w1 n Es).
    destruct (Node_insert_or_assign_edge_spec n target w1) as (f1 & -> & _).
    simpl.
    rewrite (insert_or_assign_edge_delegates _ _ _ _
               (mkNode (m_value n) (<[target := w1]> (m_edge n))))
      by apply lookup_insert_eq.
    destruct (Node_insert_or_assign_edge_spec
                (mkNode (m_value n) (<[target := w1]> (m_edge n))) target w2)
      as (f3 & -> & Hf3).
    simpl. destruct f3; [| done].
    destruct Hf3 as [Habs _]. specialize (Habs eq_refl). simpl in Habs.
    by rewrite lookup_insert_eq in Habs.
Qed.
End write_order.

Lemma repeated_edge_insertion_witness :
  Graph.insert_edge Examples.self_loop ("A", "A") 9%Z
    = (Examples.self_loop, Return (("A", 7%Z), false))
  ∧ (Graph.insert_or_assign_edge
       (Graph.insert_or_assign_edge Examples.only_A ("A", "A") 7%Z).1
       ("A", "A") 9%Z).2
    = Return (("A", 9%Z), false).
Proof.
  split.
  - apply (proj1 (repeated_edge_insertion Examples.only_A "A" "A" 7%Z 9%Z)
             Examples.self_loop ("A", 7%Z) true).
    vm_compute. reflexivity.
  - apply (proj2 (proj2 (repeated_edge_insertion Examples.only_A "A" "A" 7%Z 9%Z))).
    eexists. vm_compute. reflexivity.
Defined.

(** ** Which operations can leave an edge to a key that is no node *)
Section dangling.
Context `{Countable key_type} {value_type weight_type : Type}.
#[local] Abbreviation Node := (Node key_type value_type weight_type).
#[local] Abbreviation Graph := (Graph key_type value_type weight_type).
Implicit Types (this g : Graph) (n : Node) (source target key : key_type)
  (value : value_type) (weight : weight_type).

Lemma no_dangling_edge_iff this :
  no_dangling_edge this ↔
  ∀ source n target,
    m_umap this !! source = Some n → is_Some (m_edge n !! target) →
    is_Some (m_umap this !! target).
Proof.
  unfold no_dangling_edge. rewrite map_Forall_lookup. split.
  - intros Hall source n target Es Ht.
    apply elem_of_dom, (Hall source n Es), elem_of_dom, Ht.
  - intros Hall source n Es target Ht.
    apply elem_of_dom, (Hall source n target Es), elem_of_dom, Ht.
Qed.

(** A node without edges put at a key, new or not, leaves no edge dangling. *)
Lemma no_dangling_edge_put this key n :
  no_dangling_edge this → m_edge n = ∅ →
  no_dangling_edge (mkGraph (<[key := n]> (m_umap this))).
Proof.
  rewrite !no_dangling_edge_iff. simpl. intros Hall Hn source n' target Es Ht.
  apply lookup_insert_is_Some'. right.
  destruct (decide (key = source)) as [-> | Hne].
  - rewrite lookup_insert_eq in Es. injection Es as <-.
    rewrite Hn, lookup_empty in Ht. by destruct Ht.
  - rewrite lookup_insert_ne in Es by done. by eapply Hall.
Qed.

(** X10: an empty graph has no edge to a key that is not a node, and
    [insert_node], [insert_or_assign_node], [operator[]], [insert_edge] and
    [clear] keep it that way: on a graph in which every edge points to a
    node, each of them gives such a graph again. *)
Theorem no_dangling_edge_kept `{Inhabited value_type} this :
  no_dangling_edge (Graph.default : Graph)
  ∧ (no_dangling_edge this →
     (∀ key value, no_dangling_edge (Graph.insert_node this key value).1)
     ∧ (∀ key value, no_dangling_edge (Graph.insert_or_assign_node this key value).1)
     ∧ (∀ key, no_dangling_edge (Graph.index this key).1)
     ∧ (∀ source target weight,
          no_dangling_edge (Graph.insert_edge this (source, target) weight).1)
     ∧ no_dangling_edge (Graph.clear this)).
Proof.
  split; [apply map_Forall_empty |].
  intros Hthis. split; [| split; [| split; [| split]]].
  - intros key value. destruct (m_umap this !! key) as [n|] eqn:E.
    + by rewrite (insert_node_present _ _ _ _ E).
    + rewrite (insert_node_absent _ _ _ E). by apply no_dangling_edge_put.
  - intros key value.
    destruct (insert_or_assign_node_spec this key value) as (flag & -> & _).
    by apply no_dangling_edge_put.
  - intros key. unfold Graph.index.
    destruct (m_umap this !! key) as [n|]; [done |].
    by apply no_dangling_edge_put.
  - intros source target weight.
    destruct (Graph.insert_edge this (source, target) weight) as [g' r] eqn:E.
    destruct (insert_edge_shape _ _ _ _ _ _ E)
      as [[-> _] | (n & Es & Ht & En & -> & _)]; [done |].
    destruct (with_edge_frame this source target weight n Es) as (_ & Hkeys & _).
    simpl. apply no_dangling_edge_iff. intros s n' t Es' Ht'.
    apply Hkeys. simpl in Es'.
    destruct (decide (source = s)) as [<- | Hne].
    + rewrite lookup_insert_eq in Es'. injection Es' as <-. simpl in Ht'.
      destruct (decide (target = t)) as [<- | Hnt]; [done |].
      rewrite lookup_insert_ne in Ht' by done.
      by eapply (proj1 (no_dangling_edge_iff this) Hthis).
    + rewrite lookup_insert_ne in Es' by done.
      by eapply (proj1 (no_dangling_edge_iff this) Hthis).
  - apply map_Forall_empty.
Qed.

(** X11: [insert_or_assign_edge] is the one insertion that can leave an
    edge dangling.  On a graph in which every edge points to a node and
    [source] is a node, the graph it gives has that property exactly when
    [target] is a node too; when [target] is no node the call still returns,
    the edge is stored, and [degree_in(target)] and [at(target)] throw. *)
Theorem insert_or_assign_edge_may_dangle this source target weight :
  no_dangling_edge this →
  is_Some (m_umap this !! source) →
  (no_dangling_edge (Graph.insert_or_assign_edge this (source, target) weight).1
     ↔ is_Some (m_umap this !! target))
  ∧ (m_umap this !! target = None →
     throws (Graph.insert_or_assign_edge this (source, target) weight).2 = false
     ∧ m_umap (Graph.insert_or_assign_edge this (source, target) weight).1 !! source
         ≫= (λ n, m_edge n !! target) = Some weight
     ∧ Graph.degree_in (Graph.insert_or_assign_edge this (source, target) weight).1
         target = Throw KeyNotFound
     ∧ Graph.at_ (Graph.insert_or_assign_edge this (source, target) weight).1
         target = Throw KeyNotFound).
Proof.
  intros Hthis [n Es].
  destruct (Graph.insert_or_assign_edge this (source, target) weight)
    as [g' r] eqn:E.
  destruct (insert_or_assign_edge_shape _ _ _ _ _ _ E)
    as [(Hs & _) | (n' & flag & Es' & -> & -> & _)]; [congruence |].
  rewrite Es in Es'. injection Es' as <-.
  destruct (with_edge_frame this source target weight n Es) as (_ & Hkeys & _).
  assert (m_umap this !! target = None →
          <[source := mkNode (m_value n) (<[target := weight]> (m_edge n))]>
            (m_umap this) !! target = None) as Habsent.
  { intros Et. specialize (Hkeys target). simpl in Hkeys. rewrite Et in Hkeys.
    destruct (_ !! target) eqn:E'; [| done].
    destruct Hkeys as [Hk _]. by destruct Hk; [eexists |]. }
  simpl. split.
  - split.
    + intros Hg'. apply Hkeys.
      apply (proj1 (no_dangling_edge_iff _) Hg' source
               (mkNode (m_value n) (<[target := weight]> (m_edge n))) target).
      * apply lookup_insert_eq.
      * simpl. rewrite lookup_insert_eq. by eexists.
    + intros Ht. apply no_dangling_edge_iff. intros s n' t Es' Ht'.
      apply Hkeys. simpl in Es'.
      destruct (decide (source = s)) as [<- | Hne].
      * rewrite lookup_insert_eq in Es'. injection Es' as <-. simpl in Ht'.
        destruct (decide (target = t)) as [<- | Hnt]; [done |].
        rewrite lookup_insert_ne in Ht' by done.
        by eapply (proj1 (no_dangling_edge_iff this) Hthis).
      * rewrite lookup_insert_ne in Es' by done.
        by eapply (proj1 (no_dangling_edge_iff this) Hthis).
  - intros Et. split; [done |]. split; [| split].
    + rewrite lookup_insert_eq. simpl. apply lookup_insert_eq.
    + rewrite degree_in_eq. simpl. by rewrite (Habsent Et).
    + apply at_throws_iff. simpl. by apply Habsent.
Qed.

(** X12: [degree_in] never returns more than [size()]; on a graph in which
    every edge points to a node, neither does [degree_out]. *)
Theorem degrees_bounded_by_size this key c :
  (Graph.degree_in this key = Return c → c ≤ Graph.size this)
  ∧ (no_dangling_edge this →
     Graph.degree_out this key = Return c → c ≤ Graph.size this).
Proof.
  split; [apply degree_in_le_size |].
  intros Hthis. rewrite degree_out_eq.
  destruct (m_umap this !! key) as [n|] eqn:E; [| done].
  intros [= <-]. unfold Graph.size, umap.size.
  rewrite <- (size_dom (m_edge n)), <- (size_dom (m_umap this)).
  apply subseteq_size.
  by apply (proj1 (map_Forall_lookup _ _) Hthis key n).
Qed.
End dangling.

Lemma no_dangling_edge_kept_witness :
  (∀ key value, no_dangling_edge (Graph.insert_node Examples.abc key value).1)
  ∧ (∀ key value, no_dangling_edge (Graph.insert_or_assign_node Examples.abc key value).1)
  ∧ (∀ key, no_dangling_edge (Graph.index Examples.abc key).1)
  ∧ (∀ source target weight,
       no_dangling_edge (Graph.insert_edge Examples.abc (source, target) weight).1)
  ∧ no_dangling_edge (Graph.clear Examples.abc).
Proof.
  apply (proj2 (no_dangling_edge_kept Examples.abc)).
  apply (bool_decide_unpack _). vm_compute. exact I.
Defined.

Lemma insert_or_assign_edge_may_dangle_witness :
  (no_dangling_edge Examples.dangling ↔ is_Some (m_umap Examples.only_A !! "ghost"))
  ∧ (m_umap Examples.only_A !! "ghost" = None →
     throws (Graph.insert_or_assign_edge Examples.only_A ("A", "ghost") 1%Z).2 = false
     ∧ m_umap Examples.dangling !! "A" ≫= (λ n, m_edge n !! "ghost") = Some 1%Z
     ∧ Graph.degree_in Examples.dangling "ghost" = Throw KeyNotFound
     ∧ Graph.at_ Examples.dangling "ghost" = Throw KeyNotFound).
Proof.
  apply (insert_or_assign_edge_may_dangle Examples.only_A "A" "ghost" 1%Z).
  - apply (bool_decide_unpack _). vm_compute. exact I.
  - eexists. vm_compute. reflexivity.
Defined.

Lemma degrees_bounded_by_size_witness :
  2 ≤ Graph.size Examples.abc ∧ 2 ≤ Graph.size Examples.abc.
Proof.
  split.
  - apply (proj1 (degrees_bounded_by_size Examples.abc "C" 2)).
    vm_compute. reflexivity.
  - apply (proj2 (degrees_bounded_by_size Examples.abc "A" 2)).
    + apply (bool_decide_unpack _). vm_compute. exact I.
    + vm_compute. reflexivity.
Defined.

Example dangling_has_dangling_edge :
  ¬ no_dangling_edge Examples.dangling
  ∧ Graph.degree_out
      (Graph.insert_or_assign_edge Examples.dangling ("A", "phantom") 2%Z).1 "A"
    = Return 2
  ∧ Graph.size
      (Graph.insert_or_assign_edge Examples.dangling ("A", "phantom") 2%Z).1 = 1.
Proof.
  split; [| by vm_compute].
  apply (bool_decide_eq_false_1 _). vm_compute. reflexivity.
Qed.

(** ** Assignment and swap on objects *)
Section object_facts.
Context `{Countable key_type} {value_type weight_type : Type}.
#[local] Abbreviation Graph := (Graph key_type value_type weight_type).
Implicit Types (st : gmap nat Graph) (g : Graph) (this graph a b : nat).

Lemma swap_defined st a b st' :
  Store.swap a b st = Some st' →
  ∃ ga gb, st !! a = Some ga ∧ st !! b = Some gb.
Proof.
  unfold Store.swap.
  destruct (st !! a) as [ga|]; [| done].
  destruct (st !! b) as [gb|]; [| done]. eauto.
Qed.

(** X13: copy assignment gives the target the node map of the source and
    leaves the source, and every other object, as it was; afterwards the two
    are independent, so a method call on the target does not change the
    source.  Assigning a graph to itself changes nothing. *)
Theorem copy_assign_copies st this graph g1 g2 :
  st !! graph = Some g1 →
  st !! this = Some g2 →
  ∃ st',
    Store.copy_assign this graph st = Some st'
    ∧ st' !! this = Some g1
    ∧ st' !! graph = Some g1
    ∧ (∀ other, other ≠ this → st' !! other = st !! other)
    ∧ (this = graph → st' = st)
    ∧ (this ≠ graph →
       ∀ (R : Type) (method : Graph → Graph * R),
         ∃ st2 r, Store.call this method st' = Some (st2, r)
                  ∧ st2 !! this = Some (method g1).1
                  ∧ st2 !! graph = Some g1).
Proof.
  intros Eg Et. exists (<[this := g1]> st).
  assert (<[this := g1]> st !! graph = Some g1) as Eg'.
  { destruct (decide (this = graph)) as [-> | Hne].
    - apply lookup_insert_eq.
    - by rewrite lookup_insert_ne. }
  split; [| split; [apply lookup_insert_eq | split; [done | split; [| split]]]].
  - unfold Store.copy_assign, Store.copy_body. rewrite Eg, Et. simpl.
    by rewrite Graph_eta.
  - intros other Hne. by rewrite lookup_insert_ne.
  - intros ->. by apply insert_id.
  - intros Hne R method. eexists _, _.
    split; [apply call_spec, lookup_insert_eq |].
    rewrite lookup_insert_eq. split; [done |].
    by rewrite !lookup_insert_ne.
Qed.

(** X14: the member [swap] is its own inverse and does not depend on which
    of the two graphs it is called on: swapping the same two graphs again
    gives back the store as it was, and [a.swap(b)] and [b.swap(a)] give the
    same store. *)
Theorem swap_involutive st a b st' :
  Store.swap a b st = Some st' →
  Store.swap a b st' = Some st
  ∧ Store.swap b a st = Some st'.
Proof.
  intros E. destruct (swap_defined _ _ _ _ E) as (ga & gb & Ea & Eb).
  rewrite (swap_spec _ _ _ _ _ Ea Eb) in E. injection E as <-.
  assert (<[b := ga]> (<[a := gb]> st) !! a = Some gb) as Ea'.
  { destruct (decide (b = a)) as [-> | Hne].
    - rewrite lookup_insert_eq. congruence.
    - by rewrite lookup_insert_ne, lookup_insert_eq. }
  split.
  - rewrite (swap_spec _ _ _ gb ga Ea') by apply lookup_insert_eq.
    f_equal. apply map_eq. intros i.
    destruct (decide (i = b)) as [-> | Hb].
    + by rewrite lookup_insert_eq.
    + rewrite lookup_insert_ne by done.
      destruct (decide (i = a)) as [-> | Ha].
      * by rewrite lookup_insert_eq.
      * by rewrite !lookup_insert_ne.
  - rewrite (swap_spec _ _ _ _ _ Eb Ea). f_equal.
    destruct (decide (a = b)) as [-> | Hne].
    + congruence.
    + by apply insert_insert_ne.
Qed.
End object_facts.

Lemma copy_assign_copies_witness :
  ∃ st',
    Store.copy_assign 1 0 Examples.two_graphs = Some st'
    ∧ st' !! 1 = Some Examples.only_A
    ∧ st' !! 0 = Some Examples.only_A
    ∧ (∀ other, other ≠ 1 → st' !! other = Examples.two_graphs !! other)
    ∧ (1 = 0 → st' = Examples.two_graphs)
    ∧ (1 ≠ 0 →
       ∀ (R : Type) (method : Graph string Z Z → Graph string Z Z * R),
         ∃ st2 r, Store.call 1 method st' = Some (st2, r)
                  ∧ st2 !! 1 = Some (method Examples.only_A).1
                  ∧ st2 !! 0 = Some Examples.only_A).
Proof.
  apply (copy_assign_copies Examples.two_graphs 1 0 Examples.only_A
           (Examples.run_node "B" 0 Graph.default)).
  - vm_compute. reflexivity.
  - vm_compute. reflexivity.
Defined.

Lemma swap_involutive_witness :
  Store.swap 0 1 (<[1 := Examples.only_A]>
                    (<[0 := Examples.run_node "B" 0 Graph.default]> ∅))
    = Some Examples.two_graphs
  ∧ Store.swap 1 0 Examples.two_graphs
    = Some (<[1 := Examples.only_A]>
              (<[0 := Examples.run_node "B" 0 Graph.default]> ∅)).
Proof.
  apply (swap_involutive Examples.two_graphs 0 1).
  vm_compute. reflexivity.
Defined.

(** ** Iteration and exceptions *)
Section iteration_facts.
Context `{Countable key_type} {value_type weight_type : Type}.
#[local] Abbreviation Node := (Node key_type value_type weight_type).
#[local] Abbreviation Graph := (Graph key_type value_type weight_type).
Implicit Types (this g : Graph) (n : Node) (key : key_type)
  (weight : weight_type) (end_points : key_type * key_type).

Lemma at_returns_iff this key n :
  Graph.at_ this key = Return n ↔ m_umap this !! key = Some n.
Proof.
  destruct (m_umap this !! key) as [n0|] eqn:E.
  - destruct (queries_present this key n0 E) as (-> & _). split; congruence.
  - destruct (queries_absent this key E) as (-> & _). split; congruence.
Qed.

(** X15: an iteration from [begin()] to [end()] visits every entry exactly
    once.  Over a graph no key comes twice, the number of entries is
    [size()], and (key, node) is visited exactly when [at(key)] returns
    that node; over a node no target comes twice, the number of entries is
    the node's [size()], and (target, weight) is visited exactly when the
    node has that edge with that weight. *)
Theorem iteration_visits_each_entry_once this n :
  NoDup (Graph.entries this).*1
  ∧ length (Graph.entries this) = Graph.size this
  ∧ (∀ key node, (key, node) ∈ Graph.entries this
                 ↔ Graph.at_ this key = Return node)
  ∧ NoDup (Node.entries n).*1
  ∧ length (Node.entries n) = Node.size n
  ∧ (∀ key weight, (key, weight) ∈ Node.entries n
                   ↔ m_edge n !! key = Some weight).
Proof.
  unfold Graph.entries, Node.entries, Graph.size, Node.size, umap.size.
  split; [apply NoDup_fst_map_to_list |].
  split; [apply length_map_to_list |].
  split; [intros key node; by rewrite elem_of_map_to_list, at_returns_iff |].
  split; [apply NoDup_fst_map_to_list |].
  split; [apply length_map_to_list |].
  intros key weight. apply elem_of_map_to_list.
Qed.

(** X16: the only exception any operation throws is the one whose [what()]
    is "Key not found", and an edge insertion that throws has left the graph
    as it was. *)
Theorem throw_is_key_not_found this key end_points weight e :
  (Graph.at_ this key = Throw e
   ∨ Graph.degree_in this key = Throw e
   ∨ Graph.degree_out this key = Throw e
   ∨ Graph.loop this key = Throw e
   ∨ (Graph.insert_edge this end_points weight).2 = Throw e
   ∨ (Graph.insert_or_assign_edge this end_points weight).2 = Throw e
   → e = KeyNotFound ∧ what e = "Key not found")
  ∧ ((Graph.insert_edge this end_points weight).2 = Throw e
     → (Graph.insert_edge this end_points weight).1 = this)
  ∧ ((Graph.insert_or_assign_edge this end_points weight).2 = Throw e
     → (Graph.insert_or_assign_edge this end_points weight).1 = this).
Proof.
  destruct end_points as [source target].
  assert ((Graph.insert_edge this (source, target) weight).2 = Throw e →
          e = KeyNotFound
          ∧ (Graph.insert_edge this (source, target) weight).1 = this) as Hins.
  { destruct (Graph.insert_edge this (source, target) weight) as [g' r] eqn:E.
    simpl. intros ->.
    destruct (insert_edge_shape _ _ _ _ _ _ E)
      as [[-> [Hr | (n & w0 & _ & _ & Hr)]] | (n & _ & _ & _ & _ & Hr)];
      try done. by injection Hr as ->. }
  assert ((Graph.insert_or_assign_edge this (source, target) weight).2 = Throw e →
          e = KeyNotFound
          ∧ (Graph.insert_or_assign_edge this (source, target) weight).1 = this)
    as Hioa.
  { destruct (Graph.insert_or_assign_edge this (source, target) weight)
      as [g' r] eqn:E.
    simpl. intros ->.
    destruct (insert_or_assign_edge_shape _ _ _ _ _ _ E)
      as [(_ & -> & Hr) | (n & flag & _ & _ & Hr & _)]; try done.
    by injection Hr as ->. }
  split; [| split; [apply Hins | apply Hioa]].
  assert (e = KeyNotFound → e = KeyNotFound ∧ what e = "Key not found") as Hwhat
    by (by intros ->).
  intros [E | [E | [E | [E | [E | E]]]]]; apply Hwhat;
    try (by apply Hins); try (by apply Hioa);
    destruct (m_umap this !! key) as [n|] eqn:Ek.
  - destruct (queries_present this key n Ek) as (Ea & _). congruence.
  - destruct (queries_absent this key Ek) as (Ea & _). congruence.
  - destruct (queries_present this key n Ek) as (_ & Ea & _). congruence.
  - destruct (queries_absent this key Ek) as (_ & Ea & _). congruence.
  - destruct (queries_present this key n Ek) as (_ & _ & Ea & _). congruence.
  - destruct (queries_absent this key Ek) as (_ & _ & Ea & _). congruence.
  - destruct (queries_present this key n Ek) as (_ & _ & _ & b & Ea & _).
    congruence.
  - destruct (queries_absent this key Ek) as (_ & _ & _ & Ea). congruence.
Qed.
End iteration_facts.

Lemma throw_is_key_not_found_witness :
  (KeyNotFound = KeyNotFound ∧ what KeyNotFound = "Key not found")
  ∧ (Graph.insert_edge Examples.only_A ("A", "ghost") 1%Z).1 = Examples.only_A
  ∧ (Graph.insert_or_assign_edge Examples.only_A ("ghost", "A") 1%Z).1
    = Examples.only_A.
Proof.
  split; [| split].
  - apply (proj1 (throw_is_key_not_found Examples.only_A "ghost"
                    ("A", "ghost") 1%Z KeyNotFound)).
    right. left. vm_compute. reflexivity.
  - apply (proj1 (proj2 (throw_is_key_not_found Examples.only_A "ghost"
                           ("A", "ghost") 1%Z KeyNotFound))).
    vm_compute. reflexivity.
  - apply (proj2 (proj2 (throw_is_key_not_found Examples.only_A "ghost"
                           ("ghost", "A") 1%Z KeyNotFound))).
    vm_compute. reflexivity.
Defined.

(** ** Adding up the degrees *)
Section sums.
Context {A B : Type}.

Lemma sum_list_with_ext_in (f g : A → nat) (l : list A) :
  (∀ x, x ∈ l → f x = g x) → sum_list_with f l = sum_list_with g l.
Proof.
  induction l as [| a l IH]; intros Hfg; simpl; [done |].
  rewrite (Hfg a) by apply list_elem_of_here.
  rewrite IH; [done |]. intros x Hx. apply Hfg. by apply list_elem_of_further.
Qed.

Lemma sum_list_with_le_in (f g : A → nat) (l : list A) :
  (∀ x, x ∈ l → f x ≤ g x) → sum_list_with f l ≤ sum_list_with g l.
Proof.
  induction l as [| a l IH]; intros Hfg; simpl; [done |].
  pose proof (Hfg a (list_elem_of_here _ _)).
  assert (sum_list_with f l ≤ sum_list_with g l); [| lia].
  apply IH. intros x Hx. apply Hfg. by apply list_elem_of_further.
Qed.

Lemma sum_list_with_plus (f g : A → nat) (l : list A) :
  sum_list_with (λ x, f x + g x) l = sum_list_with f l + sum_list_with g l.
Proof. induction l as [| a l IH]; simpl; [done | lia]. Qed.

Lemma sum_list_with_fst (f : A → nat) (l : list (A * B)) :
  sum_list_with (λ e, f e.1) l = sum_list_with f l.*1.
Proof. induction l as [| a l IH]; simpl; [done | by rewrite IH]. Qed.

End sums.

Lemma sum_list_with_swap {A B : Type} (f : A → B → nat)
    (l1 : list A) (l2 : list B) :
  sum_list_with (λ x, sum_list_with (λ y, f x y) l2) l1
  = sum_list_with (λ y, sum_list_with (λ x, f x y) l1) l2.
Proof.
  induction l1 as [| a l1 IH]; simpl.
  - induction l2 as [| b l2 IH2]; simpl; [done | by rewrite <- IH2].
  - rewrite IH. symmetry.
    apply (sum_list_with_plus (f a) (λ y, sum_list_with (λ x, f x y) l1)).
Qed.

Section handshake.
Context `{Countable key_type} {value_type weight_type : Type}.
#[local] Abbreviation Node := (Node key_type value_type weight_type).
#[local] Abbreviation Graph := (Graph key_type value_type weight_type).
Implicit Types (this g : Graph) (n : Node) (key : key_type)
  (E : gmap key_type weight_type) (l : list key_type).

(** 1 when the edge map has an edge to [key], 0 otherwise. *)
#[local] Abbreviation has_edge E key :=
  (if decide (is_Some (E !! key)) then 1 else 0).

Lemma size_delete_Some E key (w : weight_type) :
  E !! key = Some w → base.size E = S (base.size (delete key E)).
Proof.
  intros Ew. rewrite <- (insert_delete_id E key w Ew) at 1.
  apply map_size_insert_None, lookup_delete_eq.
Qed.

(** Among pairwise different keys, at most [size E] are targets of [E]. *)
Lemma count_targets_le l E :
  NoDup l → sum_list_with (λ key, has_edge E key) l ≤ base.size E.
Proof.
  revert E. induction l as [| a l IH]; intros E Hnd; simpl; [lia |].
  apply NoDup_cons in Hnd as [Ha Hnd].
  destruct (decide (is_Some (E !! a))) as [[w Ew] | Hno].
  - rewrite (size_delete_Some E a w Ew).
    rewrite (sum_list_with_ext_in _ (λ key, has_edge (delete a E) key)).
    + specialize (IH (delete a E) Hnd). lia.
    + intros x Hx. rewrite lookup_delete_ne; [done |]. by intros ->.
  - by apply IH.
Qed.

(** And exactly [size E] when every target of [E] is among them. *)
Lemma count_targets_eq l E :
  NoDup l → (∀ key, is_Some (E !! key) → key ∈ l) →
  sum_list_with (λ key, has_edge E key) l = base.size E.
Proof.
  revert E. induction l as [| a l IH]; intros E Hnd Hsub; simpl.
  - symmetry. apply map_size_empty_iff, map_empty. intros i.
    apply eq_None_not_Some. intros Hi. apply Hsub in Hi. by apply elem_of_nil in Hi.
  - apply NoDup_cons in Hnd as [Ha Hnd].
    destruct (decide (is_Some (E !! a))) as [[w Ew] | Hno].
    + rewrite (size_delete_Some E a w Ew).
      rewrite (sum_list_with_ext_in _ (λ key, has_edge (delete a E) key)).
      * rewrite (IH (delete a E) Hnd); [done |].
        intros key Hk. destruct (decide (a = key)) as [-> | Hne].
        -- rewrite lookup_delete_eq in Hk. by destruct Hk.
        -- rewrite lookup_delete_ne in Hk by done.
           apply Hsub, elem_of_cons in Hk as [-> | Hk]; done.
      * intros x Hx. rewrite lookup_delete_ne; [done |]. by intros ->.
    + apply IH; [done |]. intros key Hk.
      pose proof (Hsub key Hk) as Hin.
      apply elem_of_cons in Hin as [-> | Hin]; [by destruct Hno | done].
Qed.

(** The loop of [degree_in] over a list of entries. *)
Lemma degree_in_loop_list key (entries : list (key_type * Node)) :
  foldr (uncurry (Graph.degree_in_step key)) 0 entries
  = sum_list_with (λ e, has_edge (m_edge e.2) key) entries.
Proof.
  induction entries as [| [k n] entries IH]; simpl; [done |].
  rewrite IH. destruct (decide (is_Some (m_edge n !! key))) as [Hs | Hs].
  - by rewrite degree_in_step_edge.
  - rewrite degree_in_step_no_edge; [done |]. by apply eq_None_not_Some.
Qed.

Lemma nodes_with_edge_to_entries this key :
  nodes_with_edge_to this key
  = sum_list_with (λ e, has_edge (m_edge e.2) key) (Graph.entries this).
Proof.
  unfold nodes_with_edge_to, Graph.entries.
  by rewrite <- degree_in_loop_counts, map_fold_foldr, degree_in_loop_list.
Qed.

(** The caller's loop adds up what the query returns for each entry. *)
Lemma degree_sum_entries (degree : Graph → key_type → outcome nat)
    (f : key_type * Node → nat) this :
  (∀ key n, m_umap this !! key = Some n → degree this key = Return (f (key, n))) →
  degree_sum degree this = sum_list_with f (Graph.entries this).
Proof.
  intros Hdeg. unfold degree_sum, Graph.entries. rewrite map_fold_foldr.
  assert (∀ e, e ∈ map_to_list (m_umap this) →
               degree this e.1 = Return (f e)) as Hall.
  { intros [k n] He. apply Hdeg. by apply elem_of_map_to_list. }
  revert Hall. generalize (map_to_list (m_umap this)) as l.
  induction l as [| [k n] l IH]; intros Hall; simpl; [done |].
  pose proof (Hall (k, n) (list_elem_of_here _ _)) as Hk. simpl in Hk.
  rewrite Hk, IH; [done |].
  intros e He. apply Hall. by apply list_elem_of_further.
Qed.

Lemma degree_sum_out this :
  degree_sum Graph.degree_out this
  = sum_list_with (λ e, base.size (m_edge e.2)) (Graph.entries this).
Proof.
  apply degree_sum_entries. intros key n E.
  by destruct (queries_present this key n E) as (_ & _ & -> & _).
Qed.

Lemma degree_sum_in this :
  degree_sum Graph.degree_in this
  = sum_list_with
      (λ e, sum_list_with (λ key, has_edge (m_edge e.2) key) (Graph.entries this).*1)
      (Graph.entries this).
Proof.
  rewrite (degree_sum_entries _ (λ e, nodes_with_edge_to this e.1)).
  - rewrite (sum_list_with_ext_in _
               (λ e', sum_list_with (λ e, has_edge (m_edge e.2) e'.1)
                        (Graph.entries this)))
      by (intros; apply nodes_with_edge_to_entries).
    rewrite (sum_list_with_swap (λ e' e, has_edge (m_edge e.2) e'.1)).
    apply sum_list_with_ext_in. intros e _.
    pose (f := λ key, has_edge (m_edge e.2) key).
    exact (sum_list_with_fst f (Graph.entries this)).
  - intros key n E.
    by destruct (queries_present this key n E) as (_ & -> & _).
Qed.

(** X17: adding up [degree_in] over all nodes never gives more than adding
    up [degree_out] over all nodes, and on a graph in which every edge
    points to a node the two sums are equal: each edge is counted once at
    its source and once at its target. *)
Theorem degree_sums this :
  degree_sum Graph.degree_in this ≤ degree_sum Graph.degree_out this
  ∧ (no_dangling_edge this →
     degree_sum Graph.degree_in this = degree_sum Graph.degree_out this).
Proof.
  rewrite degree_sum_in, degree_sum_out.
  pose proof (NoDup_fst_map_to_list (m_umap this)) as Hnd.
  split.
  - apply sum_list_with_le_in. intros e _. by apply count_targets_le.
  - intros Hthis. apply sum_list_with_ext_in. intros [k n] He.
    apply count_targets_eq; [done |]. simpl. intros key Hk.
    apply elem_of_map_to_list in He.
    destruct (proj1 (no_dangling_edge_iff this) Hthis k n key He Hk) as [n' Hn'].
    apply list_elem_of_fmap. exists (key, n'). split; [done |].
    by apply elem_of_map_to_list.
Qed.
End handshake.

Lemma degree_sums_witness :
  degree_sum Graph.degree_in Examples.abc = degree_sum Graph.degree_out Examples.abc.
Proof.
  apply (proj2 (degree_sums Examples.abc)).
  apply (bool_decide_unpack _). vm_compute. exact I.
Defined.

Example degree_sums_abc :
  degree_sum Graph.degree_out Examples.abc = 3
  ∧ degree_sum Graph.degree_in Examples.abc = 3
  ∧ degree_sum Graph.degree_out Examples.dangling = 1
  ∧ degree_sum Graph.degree_in Examples.dangling = 0.
Proof. vm_compute. done. Qed.

(** ** The insertions of a node on its own *)
Section node_edges.
Context `{Countable key_type} {value_type weight_type : Type}.
#[local] Abbreviation Node := (Node key_type value_type weight_type).
Implicit Types (n : Node) (key : key_type) (weight : weight_type).

(** X18: [Node::insert_edge] and [Node::insert_or_assign_edge] never throw
    and never touch the node's value or any edge to another key.  The handle
    points to the edge the node stores for [key] afterwards, and the node
    has one edge more when the flag is true and as many as before when it is
    false.  [insert_edge] returns false exactly when the node already had an
    edge to [key], and then leaves the node as it was;
    [insert_or_assign_edge] always stores [weight]. *)
Theorem node_edge_insertions n key weight :
  (∃ w flag,
      Node.insert_edge n key weight
        = ((Node.insert_edge n key weight).1, ((key, w), flag))
      ∧ m_edge (Node.insert_edge n key weight).1 !! key = Some w
      ∧ (flag = false ↔ is_Some (m_edge n !! key))
      ∧ (if flag then w = weight else (Node.insert_edge n key weight).1 = n)
      ∧ Node.size (Node.insert_edge n key weight).1
          = (if flag then S (Node.size n) else Node.size n)
      ∧ Node.getvalue (Node.insert_edge n key weight).1 = Node.getvalue n
      ∧ delete key (m_edge (Node.insert_edge n key weight).1)
          = delete key (m_edge n))
  ∧ (∃ flag,
      Node.insert_or_assign_edge n key weight
        = ((Node.insert_or_assign_edge n key weight).1, ((key, weight), flag))
      ∧ m_edge (Node.insert_or_assign_edge n key weight).1 !! key = Some weight
      ∧ (flag = false ↔ is_Some (m_edge n !! key))
      ∧ Node.size (Node.insert_or_assign_edge n key weight).1
          = (if flag then S (Node.size n) else Node.size n)
      ∧ Node.getvalue (Node.insert_or_assign_edge n key weight).1
          = Node.getvalue n
      ∧ delete key (m_edge (Node.insert_or_assign_edge n key weight).1)
          = delete key (m_edge n)).
Proof.
  split.
  - destruct (m_edge n !! key) as [w0|] eqn:E.
    + exists w0, false. rewrite (Node_insert_edge_old _ _ _ _ E). simpl.
      repeat split; eauto.
    + exists weight, true. rewrite (Node_insert_edge_new _ _ _ E). simpl.
      unfold Node.size, umap.size. simpl.
      rewrite lookup_insert_eq, delete_insert_eq, (map_size_insert_None _ _ _ E).
      repeat split; try done; by intros [? ?].
  - destruct (Node_insert_or_assign_edge_spec n key weight) as (flag & E & Hflag).
    exists flag. rewrite E. simpl.
    unfold Node.size, umap.size. simpl.
    rewrite lookup_insert_eq, delete_insert_eq.
    split; [done | split; [done | split; [| split; [| done]]]].
    + destruct (m_edge n !! key) as [w0|] eqn:En.
      * destruct flag; [| split; eauto].
        destruct Hflag as [Hflag _]. by specialize (Hflag eq_refl).
      * destruct flag; [split; [done | by intros [? ?]] |].
        destruct Hflag as [_ Hflag]. by specialize (Hflag eq_refl).
    + destruct flag.
      * apply map_size_insert_None. by apply Hflag.
      * destruct (m_edge n !! key) as [w0|] eqn:En.
        -- apply map_size_insert_Some. rewrite En. by eexists.
        -- destruct Hflag as [_ Hflag]. by specialize (Hflag eq_refl).
Qed.
End node_edges.
